(** * Duck: a shallow embedding of [Duck.mjs]

    [Duck.mjs] is a small version-control tool.  A repository is the
    directory [.duck] holding the text file [HEAD], the JSON file [index]
    and one file per object under [objects/].  The class [Duck] has the
    methods [init], [hashObject], [add], [updateStagingArea], [commit],
    [getCurrentHead], [log], [showCommitDiff], [getParentFileContent],
    [getCommitData] and [getFileContent].

    Modelling decisions.

    - The file system is a finite map from path to text.  Directories
      are implicit, so [fs.mkdir] with [recursive: true] changes
      nothing.  A path names a file by its literal text, so
      [path.join] is concatenation with a separator; that it drops
      empty, [.] and [..] segments is not modelled.  The two agree on
      a name that is one segment of a path ([segment]), which a digest
      is.
    - A text is a [string]: it stands for the JavaScript string that
      [fs.readFile] returns with the encoding [utf-8], written as its
      UTF-8 bytes.  A world holds every file as that text.  The bytes
      of a file on disk may be no text at all; [utf8_text] is the
      decoding that turns them into one, and [of_disk] the world of a
      directory of such files.
    - Every method is [async] and awaits each step before the next, so
      a method is a sequential state transformer that either returns or
      throws.  The file system keeps what was written before a throw.
      The constructor starts [init] without awaiting it; the model
      treats methods one call at a time.
    - The values that [JSON.parse] returns are dynamically typed; the
      type [value] keeps that, and the conversions the code applies to
      them (truthiness, property access, [===], string conversion) are
      written out after ECMAScript.
    - The SHA-1 digest, [JSON.stringify], [JSON.parse] and [diffLines]
      come from the platform and from libraries.  They are the fields
      of the class [Runtime]; what a proof needs to know of them is a
      stated hypothesis.  [new Date().toISOString()] is an argument of
      [commit].
    - [console.log] and [process.stdout.write] append to a list of
      output events. *)

From Stdlib Require Import ZArith Ascii String.
From stdpp Require Import gmap strings list.

Set Warnings "-register-all".

Local Open Scope string_scope.
Local Open Scope list_scope.

(** ** JavaScript values *)

(** What [JSON.parse] can return, and [undefined] for a property that
    is not there.  A number is kept as the text that [Number::toString]
    gives for it; an object is the list of its own properties in
    property order. *)
Inductive value : Type :=
  | VUndefined
  | VNull
  | VBool (b : bool)
  | VNum (repr : string)
  | VStr (s : string)
  | VArr (elems : list value)
  | VObj (props : list (string * value)).

(** The errors the code can meet.  [ENOENT p]: the file [p] cannot be
    read; [EEXIST p]: the file [p] exists and the flag [wx] forbids
    that. *)
Inductive error : Type :=
  | ENOENT (p : string)
  | EEXIST (p : string)
  | SyntaxError
  | TypeError.

Inductive colour : Type := Green | Red | Grey.

(** One output event: [console.log s], [console.log s err], or
    [process.stdout.write] of a coloured text. *)
Inductive out : Type :=
  | Log (s : string)
  | LogError (s : string) (e : error)
  | Stdout (c : colour) (s : string).

(** A part of the result of [diffLines]. *)
Record part : Type := Part { added : bool; removed : bool; part_value : string }.

(** ToBoolean. *)
Definition truthy (v : value) : bool :=
  match v with
  | VUndefined | VNull => false
  | VBool b => b
  | VNum r => negb (String.eqb r "0") && negb (String.eqb r "NaN")
  | VStr s => negb (String.eqb s "")
  | VArr _ | VObj _ => true
  end.

Fixpoint assoc (k : string) (ps : list (string * value)) : option value :=
  match ps with
  | [] => None
  | (k', v) :: ps' => if String.eqb k k' then Some v else assoc k ps'
  end.

(** [v.k] for a [v] that is neither [null] nor [undefined], and a name
    [k] that no prototype defines. *)
Definition get (v : value) (k : string) : value :=
  match v with
  | VObj ps => default VUndefined (assoc k ps)
  | _ => VUndefined
  end.

(** [a === b].  Two arrays or two objects are compared by identity, and
    the code only compares values of two separate [JSON.parse] results. *)
Definition strict_eq (a b : value) : bool :=
  match a, b with
  | VUndefined, VUndefined => true
  | VNull, VNull => true
  | VBool x, VBool y => Bool.eqb x y
  | VNum x, VNum y => String.eqb x y && negb (String.eqb x "NaN")
  | VStr x, VStr y => String.eqb x y
  | _, _ => false
  end.

(** ToString, as a template literal applies it; [None] is the
    TypeError of an object whose own [toString] is not callable. *)
Fixpoint ToString (v : value) : option string :=
  match v with
  | VUndefined => Some "undefined"
  | VNull => Some "null"
  | VBool true => Some "true"
  | VBool false => Some "false"
  | VNum r => Some r
  | VStr s => Some s
  | VArr l =>
      (fix join (l : list value) : option string :=
         match l with
         | [] => Some ""
         | e :: l' =>
             match (match e with
                    | VUndefined | VNull => Some ""
                    | _ => ToString e
                    end) with
             | None => None
             | Some s =>
                 match l' with
                 | [] => Some s
                 | _ => match join l' with
                        | None => None
                        | Some r => Some (s +:+ "," +:+ r)
                        end
                 end
             end
         end) l
  | VObj ps =>
      match assoc "toString" ps with
      | Some _ => None
      | None => Some "[object Object]"
      end
  end.

(** ** Bytes and texts *)

(** U+FFFD, the replacement character, in UTF-8. *)
Definition replacement : string :=
  String "239" (String "191" (String "189" EmptyString)).

Definition between (lo hi : N) (b : ascii) : bool :=
  ((lo <=? N_of_ascii b) && (N_of_ascii b <=? hi))%N.

(** For the first byte of a sequence of several bytes: how many bytes
    follow it, and the range of the second byte. *)
Definition lead (b : ascii) : option (nat * N * N) :=
  if between 194 223 b then Some (1%nat, 128, 191)%N
  else if between 224 224 b then Some (2%nat, 160, 191)%N
  else if between 225 236 b then Some (2%nat, 128, 191)%N
  else if between 237 237 b then Some (2%nat, 128, 159)%N
  else if between 238 239 b then Some (2%nat, 128, 191)%N
  else if between 240 240 b then Some (3%nat, 144, 191)%N
  else if between 241 243 b then Some (3%nat, 128, 191)%N
  else if between 244 244 b then Some (3%nat, 128, 143)%N
  else None.

(** The text that decoding [bytes] as [utf-8] gives, as
    [buffer.toString('utf-8')] does it: a well-formed sequence is
    kept, and every maximal part of an ill-formed one becomes U+FFFD.
    A byte order mark is kept. *)
Fixpoint utf8_text (bytes : string) : string :=
  match bytes with
  | EmptyString => EmptyString
  | String b r =>
      if between 0 127 b then String b (utf8_text r)
      else
        match lead b with
        | None => replacement +:+ utf8_text r
        | Some (n, lo, hi) =>
            match r with
            | EmptyString => replacement
            | String c1 r1 =>
                if negb (between lo hi c1) then replacement +:+ utf8_text r
                else
                  match n with
                  | 1%nat => String b (String c1 (utf8_text r1))
                  | _ =>
                      match r1 with
                      | EmptyString => replacement
                      | String c2 r2 =>
                          if negb (between 128 191 c2)
                          then replacement +:+ utf8_text r1
                          else
                            match n with
                            | 2%nat =>
                                String b (String c1 (String c2 (utf8_text r2)))
                            | _ =>
                                match r2 with
                                | EmptyString => replacement
                                | String c3 r3 =>
                                    if negb (between 128 191 c3)
                                    then replacement +:+ utf8_text r2
                                    else String b (String c1 (String c2
                                           (String c3 (utf8_text r3))))
                                end
                            end
                      end
                  end
            end
        end
  end.

(** ** The platform *)

Class Runtime : Type := {
  (** [crypto.createHash('sha1').update(content, 'utf-8').digest('hex')] *)
  sha1_hex : string -> string;
  (** [JSON.stringify] of an array or an object *)
  JSON_stringify : value -> string;
  (** [JSON.parse] of a text; [None] is its SyntaxError *)
  JSON_parse : string -> option value;
  (** [diffLines] of the package [diff] *)
  diffLines : string -> string -> list part
}.

(** ** Computations *)

Record world : Type := World { files : gmap string string; console : list out }.

Inductive result (A : Type) : Type :=
  | Ok (a : A)
  | Throw (e : error).
Arguments Ok {A} a.
Arguments Throw {A} e.

Definition M (A : Type) : Type := world -> result A * world.

Definition ret {A} (a : A) : M A := fun w => (Ok a, w).
Definition throw {A} (e : error) : M A := fun w => (Throw e, w).
Definition bind {A B} (m : M A) (k : A -> M B) : M B :=
  fun w => match m w with
           | (Ok a, w') => k a w'
           | (Throw e, w') => (Throw e, w')
           end.
Definition try_catch {A} (m : M A) (h : error -> M A) : M A :=
  fun w => match m w with
           | (Ok a, w') => (Ok a, w')
           | (Throw e, w') => h e w'
           end.

#[global] Instance M_ret : MRet M := @ret.
#[global] Instance M_bind : MBind M := fun A B k m => bind m k.

(** The world after a file is written, and after an output event. *)
Definition set_file (p c : string) (w : world) : world :=
  World (<[p := c]> (files w)) (console w).
Definition say (o : out) (w : world) : world :=
  World (files w) (console w ++ [o]).

Definition says (os : list out) (w : world) : world :=
  World (files w) (console w ++ os).

(** [fs.readFile(p, { encoding: 'utf-8' })]: the world holds the
    decoded text. *)
Definition readFile (p : string) : M string :=
  fun w => match files w !! p with
           | Some c => (Ok c, w)
           | None => (Throw (ENOENT p), w)
           end.

(** The world of a directory whose files hold the bytes [disk]: every
    file as reading it with the encoding [utf-8] returns it. *)
Definition of_disk (disk : gmap string string) : world :=
  World (utf8_text <$> disk) [].

(** [fs.writeFile(p, c)] *)
Definition writeFile (p c : string) : M unit :=
  fun w => (Ok tt, set_file p c w).

(** [fs.writeFile(p, c, { flag: 'wx' })]: fails if the file exists. *)
Definition writeFile_wx (p c : string) : M unit :=
  fun w => match files w !! p with
           | Some _ => (Throw (EEXIST p), w)
           | None => (Ok tt, set_file p c w)
           end.

(** [fs.mkdir(p, { recursive: true })] *)
Definition mkdir_recursive (p : string) : M unit := ret tt.

Definition emit (o : out) : M unit := fun w => (Ok tt, say o w).

Definition console_log (s : string) : M unit := emit (Log s).

Definition lift_option {A} (e : error) (o : option A) : M A :=
  match o with
  | Some a => ret a
  | None => throw e
  end.

(** [path.join(a, b)], for a [b] that is one segment of a path. *)
Definition path_join (a b : string) : string := a +:+ "/" +:+ b.

(** A name that is one segment of a path: not empty, not [.] or [..],
    and without a separator or a NUL.  On such a name [path.join] is
    the concatenation above. *)
Definition segment (h : string) : bool :=
  negb (String.eqb h "") && negb (String.eqb h ".")
  && negb (String.eqb h "..")
  && forallb (fun c => negb (Ascii.eqb c "/") && negb (Ascii.eqb c "000"))
       (list_ascii_of_string h).

(** [path.join(a, v)] throws a TypeError unless [v] is a string. *)
Definition path_join_value (a : string) (v : value) : M string :=
  match v with
  | VStr b => ret (path_join a b)
  | _ => throw TypeError
  end.

(** [v.k], which throws on [null] and [undefined]. *)
Definition member (v : value) (k : string) : M value :=
  match v with
  | VUndefined | VNull => throw TypeError
  | _ => ret (get v k)
  end.

(** [`${v}`] *)
Definition to_text (v : value) : M string := lift_option TypeError (ToString v).

(** A computation that writes no file. *)
Definition read_only {A} (m : M A) : Prop :=
  forall w, files (m w).2 = files w.

Module Duck.

(** [new Duck()] has [repoPath = '.'], and [path.join('.', '.duck')]
    is [.duck]. *)
Definition repoPath : string := ".duck".
Definition objectsPath : string := path_join repoPath "objects".
Definition headPath : string := path_join repoPath "HEAD".
Definition indexPath : string := path_join repoPath "index".

Section Methods.
Context `{Runtime}.

(** [JSON.parse(x)] converts [x] to a string first. *)
Definition JSON_parse_value (x : value) : M value :=
  text ← to_text x;
  lift_option SyntaxError (JSON_parse text).

Definition init : M unit :=
  mkdir_recursive objectsPath;;
  try_catch
    (writeFile_wx headPath "";;
     writeFile_wx indexPath (JSON_stringify (VArr [])))
    (fun _ => console_log "Already initialised the .duck folder").

Definition hashObject (content : string) : string := sha1_hex content.

(** [index.push(e)] *)
Definition push (index e : value) : M value :=
  match index with
  | VArr l => ret (VArr (l ++ [e]))
  | _ => throw TypeError
  end.

Definition updateStagingArea (filePath fileHash : string) : M unit :=
  text ← readFile indexPath;
  index ← JSON_parse_value (VStr text);
  index' ← push index (VObj [("path", VStr filePath); ("hash", VStr fileHash)]);
  writeFile indexPath (JSON_stringify index').

Definition add (fileToBeAdded : string) : M unit :=
  fileData ← readFile fileToBeAdded;
  let fileHash := hashObject fileData in
  console_log fileHash;;
  let newFileHashedObjectPath := path_join objectsPath fileHash in
  writeFile newFileHashedObjectPath fileData;;
  updateStagingArea fileToBeAdded fileHash;;
  console_log ("Added " +:+ fileToBeAdded).

Definition getCurrentHead : M value :=
  try_catch
    (text ← readFile headPath; ret (VStr text))
    (fun _ => ret VNull).

(** [timeStamp] is the value of [new Date().toISOString()]. *)
Definition commit (message timeStamp : string) : M unit :=
  text ← readFile indexPath;
  index ← JSON_parse_value (VStr text);
  parentCommit ← getCurrentHead;
  let commitData :=
    VObj [("timeStamp", VStr timeStamp); ("message", VStr message);
          ("files", index); ("parent", parentCommit)] in
  let commitHash := hashObject (JSON_stringify commitData) in
  let commitPath := path_join objectsPath commitHash in
  writeFile commitPath (JSON_stringify commitData);;
  writeFile headPath commitHash;;
  writeFile indexPath (JSON_stringify (VArr []));;
  console_log ("Commit successfully created: " +:+ commitHash).

Definition log_separator : string :=
  "------------------------------" +:+ String "010" "".

Definition log_entry (hash timeStamp message : string) : string :=
  "Commit: " +:+ hash +:+ String "010" "Date: " +:+ String "010"
  "                " +:+ timeStamp +:+ String "010" (String "010" "")
  +:+ message +:+ String "010" (String "010" "").

(** One turn of the loop of [log]; the result is [commitData.parent]. *)
Definition log_turn (currentCommitHash : value) : M value :=
  p ← path_join_value objectsPath currentCommitHash;
  text ← readFile p;
  commitData ← JSON_parse_value (VStr text);
  console_log log_separator;;
  hash ← to_text currentCommitHash;
  ts ← member commitData "timeStamp";
  timeStamp ← to_text ts;
  msg ← member commitData "message";
  message ← to_text msg;
  console_log (log_entry hash timeStamp message);;
  member commitData "parent".

(** The loop [while (currentCommitHash) { ... }]; [None] when the fuel
    runs out before the loop ends. *)
Fixpoint log_loop (fuel : nat) (currentCommitHash : value) (w : world)
  : option (result unit * world) :=
  if truthy currentCommitHash then
    match fuel with
    | O => None
    | S fuel' =>
        match log_turn currentCommitHash w with
        | (Ok parent, w') => log_loop fuel' parent w'
        | (Throw e, w') => Some (Throw e, w')
        end
    end
  else Some (Ok tt, w).

Definition log (fuel : nat) (w : world) : option (result unit * world) :=
  match getCurrentHead w with
  | (Ok currentCommitHash, w') => log_loop fuel currentCommitHash w'
  | (Throw e, w') => Some (Throw e, w')
  end.

Definition getCommitData (commitHash : value) : M value :=
  commitPath ← path_join_value objectsPath commitHash;
  try_catch
    (text ← readFile commitPath; ret (VStr text))
    (fun error =>
       emit (LogError "Failed to read the commit data" error);;
       ret VNull).

Definition getFileContent (fileHash : value) : M string :=
  objectPath ← path_join_value objectsPath fileHash;
  readFile objectPath.

(** [files.find(file => file.path === filePath)] on an array. *)
Fixpoint find_path (filePath : value) (l : list value) : M value :=
  match l with
  | [] => ret VUndefined
  | file :: l' =>
      p ← member file "path";
      if strict_eq p filePath then ret file else find_path filePath l'
  end.

(** [None] is the result [undefined] of a function that ends without
    [return]. *)
Definition getParentFileContent (parentCommitData filePath : value)
  : M (option string) :=
  files ← member parentCommitData "files";
  parentFile ←
    match files with
    | VArr l => find_path filePath l
    | _ => throw TypeError
    end;
  if truthy parentFile then
    hash ← member parentFile "hash";
    content ← getFileContent hash;
    ret (Some content)
  else ret None.

Definition write_part (p : part) : M unit :=
  if added p then emit (Stdout Green ("++" +:+ part_value p))
  else if removed p then emit (Stdout Red ("--" +:+ part_value p))
  else emit (Stdout Grey (part_value p)).

Fixpoint forEach {A} (f : A -> M unit) (l : list A) : M unit :=
  match l with
  | [] => ret tt
  | a :: l' => f a;; forEach f l'
  end.

(** The body of the loop [for (const file of commitData.files)]. *)
Definition show_file (commitData file : value) : M unit :=
  p ← member file "path";
  shown ← to_text p;
  console_log ("File: " +:+ shown);;
  hash ← member file "hash";
  fileContent ← getFileContent hash;
  console_log fileContent;;
  parent ← member commitData "parent";
  if truthy parent then
    text ← getCommitData parent;
    parentCommitData ← JSON_parse_value text;
    before ← getParentFileContent parentCommitData p;
    match before with
    | Some parentContent =>
        console_log (String "010" "Diff:");;
        forEach write_part (diffLines parentContent fileContent);;
        console_log ""
    | None => console_log "New file in this commit"
    end
  else console_log "First commit".

(** [for (const file of v)]: an array gives its elements; a string
    gives its characters, each a string; anything else is not iterable. *)
Definition iterate (v : value) : M (list value) :=
  match v with
  | VArr l => ret l
  | VStr s => ret (map (fun c => VStr (String c "")) (list_ascii_of_string s))
  | _ => throw TypeError
  end.

Definition showCommitDiff (commitHash : string) : M unit :=
  text ← getCommitData (VStr commitHash);
  commitData ← JSON_parse_value text;
  if negb (truthy commitData) then console_log "Commit not found"
  else
    console_log "Changes in the last commit are: ";;
    files ← member commitData "files";
    l ← iterate files;
    forEach (show_file commitData) l.

End Methods.
End Duck.

Import Duck.

(** ** Shapes of the stored data *)

(** An entry of the index: [{ path: filePath, hash: fileHash }]. *)
Definition entry (p h : string) : value :=
  VObj [("path", VStr p); ("hash", VStr h)].

(** The object [commitData] that [commit] builds. *)
Definition commit_record (timeStamp message : string) (files parent : value)
  : value :=
  VObj [("timeStamp", VStr timeStamp); ("message", VStr message);
        ("files", files); ("parent", parent)].

(** The path of the object with the name [h]. *)
Definition objPath (h : string) : string := path_join objectsPath h.

Definition is_digit (c : ascii) : bool :=
  let n := nat_of_ascii c in (48 <=? n)%nat && (n <=? 57)%nat.

Fixpoint all_digits (s : string) : bool :=
  match s with
  | EmptyString => true
  | String c s' => is_digit c && all_digits s'
  end.

(** A property name that is an integer index: JavaScript lists such
    properties first, whatever the order they were created in. *)
Definition index_key (k : string) : bool :=
  match k with
  | EmptyString => false
  | String c EmptyString => is_digit c
  | String c k' => is_digit c && negb (Ascii.eqb c "0") && all_digits k'
  end.

Fixpoint distinct (l : list string) : bool :=
  match l with
  | [] => true
  | k :: l' => negb (existsb (String.eqb k) l') && distinct l'
  end.

(** The values that [JSON.stringify] writes and [JSON.parse] reads back
    unchanged: no [undefined], no number, and objects whose property
    names are distinct and are not integer indices. *)
Fixpoint is_plain (v : value) : bool :=
  match v with
  | VUndefined | VNum _ => false
  | VNull | VBool _ | VStr _ => true
  | VArr l => forallb is_plain l
  | VObj ps =>
      distinct (map fst ps)
      && forallb (fun kv => match kv with
                            | (k, v') => negb (index_key k) && is_plain v'
                            end) ps
  end.

(** ** Induction on values *)

Section value_induction.
Variable P : value -> Prop.
Hypothesis Hundef : P VUndefined.
Hypothesis Hnull : P VNull.
Hypothesis Hbool : forall b, P (VBool b).
Hypothesis Hnum : forall r, P (VNum r).
Hypothesis Hstr : forall s, P (VStr s).
Hypothesis Harr : forall l, Forall P l -> P (VArr l).
Hypothesis Hobj : forall ps, Forall (fun kv => P kv.2) ps -> P (VObj ps).

Fixpoint value_nested_ind (v : value) : P v :=
  match v with
  | VUndefined => Hundef
  | VNull => Hnull
  | VBool b => Hbool b
  | VNum r => Hnum r
  | VStr s => Hstr s
  | VArr l =>
      Harr l ((fix go (l : list value) : Forall P l :=
                 match l with
                 | [] => @List.Forall_nil _ P
                 | x :: l' =>
                     @List.Forall_cons _ P x l' (value_nested_ind x) (go l')
                 end) l)
  | VObj ps =>
      Hobj ps ((fix go (ps : list (string * value))
                  : Forall (fun kv => P kv.2) ps :=
                  match ps with
                  | [] => @List.Forall_nil _ (fun kv => P kv.2)
                  | (k, x) :: ps' =>
                      @List.Forall_cons _ (fun kv => P kv.2) (k, x) ps'
                        (value_nested_ind x) (go ps')
                  end) ps)
  end.
End value_induction.

(** ** A reference runtime

    An executable instance of [Runtime], for running the model on
    concrete repositories: SHA-1 after FIPS 180-4 over the characters
    of the text as bytes, and the compact JSON that [JSON.stringify]
    writes.  The parser reads that compact form: no white space between
    tokens, no numbers, [\u] escapes below 128 only, and objects whose
    property names are distinct and are not integer indices.  On any
    other text it answers [None]. *)

Module Ref.

Local Open Scope N_scope.

Definition mask32 : N := 4294967295.
Definition add32 (a b : N) : N := N.land (a + b) mask32.
Definition rotl (n : N) (x : N) : N :=
  N.land (N.lor (N.shiftl x n) (N.shiftr x (32 - n))) mask32.
Definition not32 (x : N) : N := N.lxor x mask32.

(** The message, one byte per character. *)
Fixpoint bytes_of (s : string) : list N :=
  match s with
  | EmptyString => []
  | String c s' => N_of_ascii c :: bytes_of s'
  end.

Fixpoint be_bytes (width : nat) (x : N) : list N :=
  match width with
  | O => []
  | S w => N.land (N.shiftr x (8 * N.of_nat w)) 255 :: be_bytes w x
  end.

(** Padding: the bit 1, zeros up to 56 modulo 64, the bit length. *)
Definition pad (msg : list N) : list N :=
  let len := N.of_nat (List.length msg) in
  let zeros := N.to_nat ((119 - len mod 64) mod 64) in
  msg ++ [128] ++ repeat 0 zeros ++ be_bytes 8 (8 * len).

Fixpoint words (fuel : nat) (bs : list N) : list N :=
  match fuel, bs with
  | S f, a :: b :: c :: d :: bs' =>
      (N.shiftl a 24 + N.shiftl b 16 + N.shiftl c 8 + d) :: words f bs'
  | _, _ => []
  end.

(** The message schedule, newest word first. *)
Fixpoint schedule (n : nat) (ws : list N) : list N :=
  match n with
  | O => ws
  | S n' =>
      let w := rotl 1 (N.lxor (N.lxor (nth 2 ws 0) (nth 7 ws 0))
                               (N.lxor (nth 13 ws 0) (nth 15 ws 0))) in
      schedule n' (w :: ws)
  end.

Definition state : Type := (N * N * N * N * N)%type.

Definition round (t : nat) (st : state) (w : N) : state :=
  let '(a, b, c, d, e) := st in
  let '(f, k) :=
    if Nat.ltb t 20 then (N.lor (N.land b c) (N.land (not32 b) d), 1518500249)
    else if Nat.ltb t 40 then (N.lxor (N.lxor b c) d, 1859775393)
    else if Nat.ltb t 60 then
      (N.lor (N.lor (N.land b c) (N.land b d)) (N.land c d), 2400959708)
    else (N.lxor (N.lxor b c) d, 3395469782) in
  (add32 (add32 (add32 (add32 (rotl 5 a) f) e) k) w, a, rotl 30 b, c, d).

Fixpoint rounds (t : nat) (ws : list N) (st : state) : state :=
  match ws with
  | [] => st
  | w :: ws' => rounds (S t) ws' (round t st w)
  end.

Definition block (st : state) (ws16 : list N) : state :=
  let '(a, b, c, d, e) := st in
  let '(a', b', c', d', e') := rounds 0 (rev (schedule 64 (rev ws16))) st in
  (add32 a a', add32 b b', add32 c c', add32 d d', add32 e e').

Fixpoint blocks (fuel : nat) (ws : list N) (st : state) : state :=
  match fuel, ws with
  | S f, _ :: _ => blocks f (skipn 16 ws) (block st (firstn 16 ws))
  | _, _ => st
  end.

Definition hex_digit (n : N) : ascii :=
  ascii_of_N (if n <? 10 then 48 + n else 87 + n).

Fixpoint hex (digits : nat) (x : N) : string :=
  match digits with
  | O => EmptyString
  | S d => String (hex_digit (N.land (N.shiftr x (4 * N.of_nat d)) 15)) (hex d x)
  end.

Definition sha1_hex (content : string) : string :=
  let bs := pad (bytes_of content) in
  let ws := words (List.length bs) bs in
  let '(a, b, c, d, e) :=
    blocks (List.length ws) ws
      (1732584193, 4023233417, 2562383102, 271733878, 3285377520) in
  (hex 8 a +:+ hex 8 b +:+ hex 8 c +:+ hex 8 d +:+ hex 8 e).


Local Close Scope N_scope.

Definition dquote : ascii := "034".
Definition backslash : ascii := "092".

(** [JSON.stringify] of one character of a string. *)
Definition escape_char (c : ascii) : string :=
  if Ascii.eqb c dquote then String backslash (String dquote EmptyString)
  else if Ascii.eqb c backslash then String backslash (String backslash EmptyString)
  else if Ascii.eqb c "008" then String backslash "b"
  else if Ascii.eqb c "012" then String backslash "f"
  else if Ascii.eqb c "010" then String backslash "n"
  else if Ascii.eqb c "013" then String backslash "r"
  else if Ascii.eqb c "009" then String backslash "t"
  else if (N_of_ascii c <? 32)%N then
    String backslash ("u00" +:+ hex 2 (N_of_ascii c))
  else String c EmptyString.

Fixpoint escape (s : string) : string :=
  match s with
  | EmptyString => EmptyString
  | String c s' => escape_char c +:+ escape s'
  end.

Definition quote (s : string) : string :=
  String dquote (escape s +:+ String dquote EmptyString).

(** [JSON.stringify]: [undefined] is [null] in an array and dropped
    from an object. *)
Fixpoint stringify (v : value) : string :=
  match v with
  | VUndefined | VNull => "null"
  | VBool true => "true"
  | VBool false => "false"
  | VNum r =>
      if String.eqb r "NaN" || String.eqb r "Infinity" || String.eqb r "-Infinity"
      then "null" else r
  | VStr s => quote s
  | VArr l =>
      "[" +:+
      (fix elems (l : list value) : string :=
         match l with
         | [] => "]"
         | v :: l' =>
             stringify v +:+
             match l' with
             | [] => "]"
             | _ => "," +:+ elems l'
             end
         end) l
  | VObj ps =>
      "{" +:+
      (fix members (first : bool) (ps : list (string * value)) : string :=
         match ps with
         | [] => "}"
         | (_, VUndefined) :: ps' => members first ps'
         | (k, v) :: ps' =>
             (if first then EmptyString else ",") +:+
             quote k +:+ ":" +:+ stringify v +:+ members false ps'
         end) true ps
  end.

Fixpoint strip (pre s : string) : option string :=
  match pre, s with
  | EmptyString, _ => Some s
  | String a pre', String b s' => if Ascii.eqb a b then strip pre' s' else None
  | _, _ => None
  end.

Definition hex_value (c : ascii) : option N :=
  let n := N_of_ascii c in
  if (48 <=? n)%N && (n <=? 57)%N then Some (n - 48)%N
  else if (97 <=? n)%N && (n <=? 102)%N then Some (n - 87)%N
  else if (65 <=? n)%N && (n <=? 70)%N then Some (n - 55)%N
  else None.

(** The character that a backslash and [e] stand for. *)
Definition simple_escape (e : ascii) : option ascii :=
  if Ascii.eqb e dquote then Some dquote
  else if Ascii.eqb e backslash then Some backslash
  else if Ascii.eqb e "/" then Some "/"%char
  else if Ascii.eqb e "b" then Some "008"%char
  else if Ascii.eqb e "f" then Some "012"%char
  else if Ascii.eqb e "n" then Some "010"%char
  else if Ascii.eqb e "r" then Some "013"%char
  else if Ascii.eqb e "t" then Some "009"%char
  else None.

(** The characters of a string literal after its opening quote, up to
    the closing quote. *)
Fixpoint parse_chars (s : string) : option (string * string) :=
  match s with
  | EmptyString => None
  | String c s' =>
      if Ascii.eqb c dquote then Some (EmptyString, s')
      else if Ascii.eqb c backslash then
        match s' with
        | EmptyString => None
        | String e s'' =>
            if Ascii.eqb e "u" then
              match s'' with
              | String a (String b (String c' (String d s3))) =>
                  match hex_value a, hex_value b, hex_value c', hex_value d with
                  | Some 0%N, Some 0%N, Some x, Some y =>
                      if (x <? 8)%N then
                        match parse_chars s3 with
                        | Some (r, rest) =>
                            Some (String (ascii_of_N (16 * x + y)) r, rest)
                        | None => None
                        end
                      else None
                  | _, _, _, _ => None
                  end
              | _ => None
              end
            else
              match simple_escape e with
              | Some c' =>
                  match parse_chars s'' with
                  | Some (r, rest) => Some (String c' r, rest)
                  | None => None
                  end
              | None => None
              end
        end
      else if (N_of_ascii c <? 32)%N then None
      else
        match parse_chars s' with
        | Some (r, rest) => Some (String c r, rest)
        | None => None
        end
  end.

(** The property names that [JSON.parse] keeps as written: each once,
    and none an integer index. *)
Definition keys_ok (ps : list (string * value)) : bool :=
  distinct (map fst ps) && forallb (fun kv => negb (index_key kv.1)) ps.

Fixpoint parse_value (fuel : nat) (s : string) : option (value * string) :=
  match fuel with
  | O => None
  | S fuel' =>
      match s with
      | EmptyString => None
      | String c rest =>
          if Ascii.eqb c "n" then option_map (pair VNull) (strip "ull" rest)
          else if Ascii.eqb c "t" then
            option_map (pair (VBool true)) (strip "rue" rest)
          else if Ascii.eqb c "f" then
            option_map (pair (VBool false)) (strip "alse" rest)
          else if Ascii.eqb c dquote then
            match parse_chars rest with
            | Some (str, rest') => Some (VStr str, rest')
            | None => None
            end
          else if Ascii.eqb c "[" then
            match strip "]" rest with
            | Some rest' => Some (VArr [], rest')
            | None =>
                match parse_elems fuel' rest with
                | Some (l, rest') => Some (VArr l, rest')
                | None => None
                end
            end
          else if Ascii.eqb c "{" then
            match strip "}" rest with
            | Some rest' => Some (VObj [], rest')
            | None =>
                match parse_members fuel' rest with
                | Some (ps, rest') =>
                    if keys_ok ps then Some (VObj ps, rest') else None
                | None => None
                end
            end
          else None
      end
  end
with parse_elems (fuel : nat) (s : string) : option (list value * string) :=
  match fuel with
  | O => None
  | S fuel' =>
      match parse_value fuel' s with
      | Some (v, String c rest) =>
          if Ascii.eqb c "]" then Some ([v], rest)
          else if Ascii.eqb c "," then
            match parse_elems fuel' rest with
            | Some (l, rest') => Some (v :: l, rest')
            | None => None
            end
          else None
      | _ => None
      end
  end
with parse_members (fuel : nat) (s : string)
  : option (list (string * value) * string) :=
  match fuel with
  | O => None
  | S fuel' =>
      match strip (String dquote EmptyString) s with
      | None => None
      | Some s1 =>
          match parse_chars s1 with
          | Some (k, String colon s2) =>
              if Ascii.eqb colon ":" then
                match parse_value fuel' s2 with
                | Some (v, String c rest) =>
                    if Ascii.eqb c "}" then Some ([(k, v)], rest)
                    else if Ascii.eqb c "," then
                      match parse_members fuel' rest with
                      | Some (ps, rest') => Some ((k, v) :: ps, rest')
                      | None => None
                      end
                    else None
                | _ => None
                end
              else None
          | _ => None
          end
      end
  end.

Definition parse (s : string) : option value :=
  match parse_value (String.length s) s with
  | Some (v, EmptyString) => Some v
  | _ => None
  end.

(** A stand-in for [diffLines], which is not modelled: the two texts
    as one removed and one added part, or one unchanged part.  It is
    what [diffLines] returns for two equal texts that are not empty,
    and for two texts that are not empty and have no line in common. *)
Definition diff_whole (before after : string) : list part :=
  if String.eqb before after then [Part false false after]
  else [Part false true before; Part true false after].

Definition runtime : Runtime :=
  Build_Runtime sha1_hex stringify parse diff_whole.

(** The two loops of [stringify] by name, and a measure of the fuel
    that [parse_value] needs for a value. *)
Fixpoint stringify_elems (l : list value) : string :=
  match l with
  | [] => "]"
  | v :: l' =>
      stringify v +:+
      match l' with
      | [] => "]"
      | _ => "," +:+ stringify_elems l'
      end
  end.

Fixpoint stringify_members (first : bool) (ps : list (string * value)) : string :=
  match ps with
  | [] => "}"
  | (_, VUndefined) :: ps' => stringify_members first ps'
  | (k, v) :: ps' =>
      (if first then EmptyString else ",") +:+
      quote k +:+ ":" +:+ stringify v +:+ stringify_members false ps'
  end.

Fixpoint size (v : value) : nat :=
  match v with
  | VArr l =>
      S ((fix go (l : list value) : nat :=
            match l with
            | [] => O
            | x :: l' => S (size x + go l')
            end) l)
  | VObj ps =>
      S ((fix go (ps : list (string * value)) : nat :=
            match ps with
            | [] => O
            | (_, x) :: ps' => S (size x + go ps')
            end) ps)
  | _ => 1
  end.

Fixpoint size_elems (l : list value) : nat :=
  match l with
  | [] => O
  | x :: l' => S (size x + size_elems l')
  end.

Fixpoint size_members (ps : list (string * value)) : nat :=
  match ps with
  | [] => O
  | (_, x) :: ps' => S (size x + size_members ps')
  end.

(** What [parse_chars] answers after a character [c] that is followed
    by [t]. *)
Definition continue (c : ascii) (t : string) : option (string * string) :=
  match parse_chars t with
  | Some (r, rest) => Some (String c r, rest)
  | None => None
  end.

(** The text of the members of an object, the first without a comma. *)
Definition members_text (ps : list (string * value)) : string :=
  match ps with
  | [] => "}"
  | (k, v) :: ps' =>
      quote k +:+ ":" +:+ stringify v +:+ stringify_members false ps'
  end.

(** [parse_value] reads [v] back from its text, with enough fuel and
    whatever follows. *)
Definition parses (v : value) : Prop :=
  is_plain v = true ->
  forall fuel rest,
    (size v <= fuel)%nat ->
    parse_value fuel (stringify v +:+ rest) = Some (v, rest).

End Ref.

(** ** What the proofs assume of the platform *)

Section Laws.
Context `{Runtime}.

(** [JSON.parse(JSON.stringify(v))] gives [v] back. *)
Definition JSON_roundtrip : Prop :=
  forall v, is_plain v = true -> JSON_parse (JSON_stringify v) = Some v.

(** [JSON.parse("null")] is [null]. *)
Definition JSON_parse_null : Prop := JSON_parse "null" = Some VNull.

(** A digest is never the empty string (it has 40 digits). *)
Definition digest_nonempty : Prop := forall c, sha1_hex c <> "".

End Laws.

(** ** The vocabulary of the properties *)

Section Vocabulary.
Context `{Runtime}.

(** The value that [getCurrentHead] returns in [w]. *)
Definition head_value (w : world) : value :=
  match files w !! headPath with
  | Some h => VStr h
  | None => VNull
  end.

(** The staging index of [w] is the sequence [l]. *)
Definition index_is (w : world) (l : list value) : Prop :=
  exists text, files w !! indexPath = Some text /\ JSON_parse text = Some (VArr l).

(** [HEAD] exists in [w] and holds [h]. *)
Definition head_is (w : world) (h : string) : Prop :=
  files w !! headPath = Some h.

(** The object store of [w] holds, under the hash [k] of its text, a
    commit record that [JSON.parse] reads as [r]. *)
Definition stored_record (w : world) (k : string) (r : value) : Prop :=
  exists text,
    files w !! objPath k = Some text /\ k = hashObject text
    /\ JSON_parse text = Some r.

(** The output event of one part of a diff. *)
Definition part_out (p : part) : out :=
  if added p then Stdout Green ("++" +:+ part_value p)
  else if removed p then Stdout Red ("--" +:+ part_value p)
  else Stdout Grey (part_value p).

(** The content of the object [h] in [w] (empty when there is none). *)
Definition blob (w : world) (h : string) : string :=
  default "" (files w !! objPath h).

(** A history is the list of its commits, newest first, each with its
    hash. *)
Definition tip (recs : list (string * value)) : string :=
  match recs with
  | [] => ""
  | (k, _) :: _ => k
  end.

(** Every record of the history is stored under the hash of its text,
    and names the hash of the next one (the empty string after the
    last) as its parent. *)
Fixpoint chain_ok (w : world) (recs : list (string * value)) : Prop :=
  match recs with
  | [] => True
  | (k, r) :: older =>
      (exists ts m fs,
          r = commit_record ts m fs (VStr (tip older)) /\ is_plain fs = true)
      /\ files w !! objPath k = Some (JSON_stringify r)
      /\ k = hashObject (JSON_stringify r)
      /\ chain_ok w older
  end.

Fixpoint linked (recs : list (string * value)) : Prop :=
  match recs with
  | [] => True
  | (_, r) :: older => get r "parent" = VStr (tip older) /\ linked older
  end.

(** The text of a string value. *)
Definition text_of (v : value) : string := default "" (ToString v).

(** What [log] prints for a history. *)
Definition log_output (recs : list (string * value)) : list out :=
  flat_map
    (fun kr => [Log log_separator;
                Log (log_entry kr.1 (text_of (get kr.2 "timeStamp"))
                       (text_of (get kr.2 "message")))])
    recs.

(** No object of [w] is lost or overwritten in [w']. *)
Definition objects_kept (w w' : world) : Prop :=
  forall k c, files w !! objPath k = Some c -> files w' !! objPath k = Some c.

(** A test for [objects_kept] that can be run. *)
Definition objects_keptb (w w' : world) : bool :=
  forallb
    (fun pc => if String.prefix (objPath "") pc.1
               then bool_decide (files w' !! pc.1 = Some pc.2)
               else true)
    (map_to_list (files w)).

(** A session: the calls of [add] and [commit], and the user's edits of
    working files between them.  A call that throws ends its process
    and the session goes on from the world it left. *)
Inductive cmd : Type :=
  | Add (f : string)
  | Commit (message timeStamp : string)
  | Edit (f content : string).

Definition exec (c : cmd) (w : world) : world :=
  match c with
  | Add f => (add f w).2
  | Commit m ts => (commit m ts w).2
  | Edit f c => set_file f c w
  end.

Definition run (cmds : list cmd) (w : world) : world :=
  foldl (fun w c => exec c w) w cmds.

(** The messages and time stamps of the commits of a session, oldest
    first. *)
Fixpoint commits_of (cmds : list cmd) : list (value * value) :=
  match cmds with
  | [] => []
  | Commit m ts :: cmds' => (VStr m, VStr ts) :: commits_of cmds'
  | _ :: cmds' => commits_of cmds'
  end.

(** A session without hash collisions: no call overwrites an object
    with another text, and the user edits no file of the repository. *)
Fixpoint clean (cmds : list cmd) (w : world) : Prop :=
  match cmds with
  | [] => True
  | c :: cmds' =>
      match c with
      | Edit f _ => String.prefix repoPath f = false
      | _ => objects_kept w (exec c w)
      end
      /\ clean cmds' (exec c w)
  end.

(** The state of a repository with the history [recs]: HEAD names
    its tip, the index is a sequence of plain values, and the history
    is stored. *)
Definition repo_ok (w : world) (recs : list (string * value)) : Prop :=
  head_is w (tip recs)
  /\ (exists idx, index_is w idx /\ is_plain (VArr idx) = true)
  /\ chain_ok w recs.

(** A computation that removes no file. *)
Definition keeps_files {A} (m : M A) : Prop :=
  forall w p, is_Some (files w !! p) -> is_Some (files (m w).2 !! p).

(** The world in which [add] of a file with the content [c] calls
    [updateStagingArea]: the hash is printed and the blob is written. *)
Definition blob_written (c : string) (w : world) : world :=
  set_file (objPath (hashObject c)) c (say (Log (hashObject c)) w).

(** The text of the file [f] in [w] (empty when there is none). *)
Definition file_text (w : world) (f : string) : string :=
  default "" (files w !! f).

(** The first pair of [es] with the path [p]: what [find] returns on a
    list of entries. *)
Fixpoint first_with_path (p : string) (es : list (string * string))
  : option (string * string) :=
  match es with
  | [] => None
  | e :: es' => if String.eqb e.1 p then Some e else first_with_path p es'
  end.

(** What [showCommitDiff] prints for the file [e] of a commit whose
    parent has the files [parent_files] ([None]: no parent). *)
Definition file_report (w : world)
           (parent_files : option (list (string * string)))
           (e : string * string) : list out :=
  [Log ("File: " +:+ e.1); Log (blob w e.2)] ++
  match parent_files with
  | None => [Log "First commit"]
  | Some es =>
      match first_with_path e.1 es with
      | Some e' =>
          [Log (String "010" "Diff:")]
          ++ map part_out (diffLines (blob w e'.2) (blob w e.2))
          ++ [Log ""]
      | None => [Log "New file in this commit"]
      end
  end.

(** A commit of a history made by the tool: its hash, time stamp,
    message and staged entries. *)
Record commit_info : Type := Info {
  c_hash : string;
  c_timeStamp : string;
  c_message : string;
  c_files : list (string * string)
}.

Definition head_of (hs : list commit_info) : string :=
  match hs with
  | [] => ""
  | c :: _ => c_hash c
  end.

(** The record of the commit [c] whose predecessors are [older]. *)
Definition record_of (c : commit_info) (older : list commit_info) : value :=
  commit_record (c_timeStamp c) (c_message c)
    (VArr (map (fun e => entry e.1 e.2) (c_files c)))
    (VStr (head_of older)).

(** The blob of every entry is in the store. *)
Definition blobs_stored (w : world) (es : list (string * string)) : Prop :=
  Forall (fun e => is_Some (files w !! objPath e.2)) es.

(** The history [hs], newest first, is stored with the blobs it names. *)
Fixpoint history_ok (w : world) (hs : list commit_info) : Prop :=
  match hs with
  | [] => True
  | c :: older =>
      files w !! objPath (c_hash c) = Some (JSON_stringify (record_of c older))
      /\ c_hash c = hashObject (JSON_stringify (record_of c older))
      /\ blobs_stored w (c_files c)
      /\ history_ok w older
  end.

Definition parent_files (older : list commit_info)
  : option (list (string * string)) :=
  match older with
  | [] => None
  | c :: _ => Some (c_files c)
  end.

(** What [showCommitDiff] prints for the commit [c] whose predecessors
    are [older]. *)
Definition show_output (w : world) (c : commit_info)
           (older : list commit_info) : list out :=
  Log "Changes in the last commit are: "
  :: flat_map (file_report w (parent_files older)) (c_files c).

(** A commit as the session made it: its message, its time stamp and
    the files staged for it in order, each with its path and the
    content it had when it was added. *)
Record snapshot : Type := Snapshot {
  s_message : string;
  s_timeStamp : string;
  s_files : list (string * string)
}.

(** The commits of a session, newest first.  [staged] are the files
    added since the last commit and [made] the commits so far; an
    [add] of a file that cannot be read stages nothing. *)
Fixpoint snapshots (cmds : list cmd) (w : world)
         (staged : list (string * string)) (made : list snapshot)
  : list snapshot :=
  match cmds with
  | [] => made
  | c :: cmds' =>
      match c with
      | Add f =>
          match files w !! f with
          | Some content =>
              snapshots cmds' (exec c w) (staged ++ [(f, content)]) made
          | None => snapshots cmds' (exec c w) staged made
          end
      | Commit m ts =>
          snapshots cmds' (exec c w) [] (Snapshot m ts staged :: made)
      | Edit _ _ => snapshots cmds' (exec c w) staged made
      end
  end.

(** The index entries of staged files. *)
Definition staged_entries (fs : list (string * string))
  : list (string * string) :=
  map (fun pc => (pc.1, hashObject pc.2)) fs.

(** The commits of a list of snapshots, newest first, each with the
    hash that [commit] gives it. *)
Fixpoint commit_infos (ss : list snapshot) : list commit_info :=
  match ss with
  | [] => []
  | s :: older =>
      Info (hashObject
              (JSON_stringify
                 (commit_record (s_timeStamp s) (s_message s)
                    (VArr (map (fun e => entry e.1 e.2)
                             (staged_entries (s_files s))))
                    (VStr (head_of (commit_infos older))))))
        (s_timeStamp s) (s_message s) (staged_entries (s_files s))
      :: commit_infos older
  end.

(** The content of every staged file is in the store under its hash. *)
Definition contents_stored (w : world) (fs : list (string * string)) : Prop :=
  Forall (fun pc => files w !! objPath (hashObject pc.2) = Some pc.2) fs.

(** The state of a repository in a session that has staged [staged]
    since its last commit and made the commits [made]. *)
Definition tracked (w : world) (staged : list (string * string))
           (made : list snapshot) : Prop :=
  head_is w (head_of (commit_infos made))
  /\ index_is w (map (fun e => entry e.1 e.2) (staged_entries staged))
  /\ contents_stored w staged
  /\ history_ok w (commit_infos made)
  /\ Forall (fun s => contents_stored w (s_files s)) made.

(** What [showCommitDiff] prints for a staged file with the path
    [pc.1] and the content [pc.2], when the parent commit has the
    files [parent] ([None]: no parent). *)
Definition content_report (parent : option (list (string * string)))
           (pc : string * string) : list out :=
  [Log ("File: " +:+ pc.1); Log pc.2] ++
  match parent with
  | None => [Log "First commit"]
  | Some fs =>
      match first_with_path pc.1 fs with
      | Some pc' =>
          [Log (String "010" "Diff:")]
          ++ map part_out (diffLines pc'.2 pc.2)
          ++ [Log ""]
      | None => [Log "New file in this commit"]
      end
  end.

(** What [showCommitDiff] prints for the commit [s] of a session whose
    earlier commits are [older]. *)
Definition snapshot_output (s : snapshot) (older : list snapshot)
  : list out :=
  Log "Changes in the last commit are: "
  :: flat_map (content_report
                 match older with
                 | [] => None
                 | p :: _ => Some (s_files p)
                 end) (s_files s).

End Vocabulary.

(** ** Concrete repositories *)

Section Scenarios.
#[local] Existing Instance Ref.runtime.

Definition newline : string := String "010" EmptyString.

(** A working directory with one file, before and after [init]. *)
Definition bare : world := World {[ "a.txt" := "hello" +:+ newline ]} [].
Definition fresh : world := (init bare).2.

(** The session of the specification: two versions of [a.txt], each
    added and committed. *)
Definition session : list cmd :=
  [ Add "a.txt"; Commit "c1" "2024-01-01T00:00:00.000Z";
    Edit "a.txt" ("hello" +:+ newline +:+ "world" +:+ newline);
    Add "a.txt"; Commit "c2" "2024-01-02T00:00:00.000Z" ].

Definition hello : string := "hello" +:+ newline.

(** The fresh repository after [add] of [a.txt]. *)
Definition staged : world := (add "a.txt" fresh).2.

(** Stores with a reference to an object that is not there. *)
Definition missing_parent : string := "1111111111111111111111111111111111111111".
Definition missing_blob : string := "2222222222222222222222222222222222222222".

Definition with_head (r : value) : world :=
  World {[ headPath := hashObject (JSON_stringify r);
           objPath (hashObject (JSON_stringify r)) := JSON_stringify r ]} [].

(** A commit with a file whose blob is missing and a parent that is
    missing. *)
Definition both_missing : value :=
  commit_record "2024-01-02T00:00:00.000Z" "c2"
    (VArr [entry "a.txt" missing_blob]) (VStr missing_parent).

(** A commit without files whose parent is missing. *)
Definition parent_missing : value :=
  commit_record "2024-01-02T00:00:00.000Z" "c2" (VArr []) (VStr missing_parent).

(** A commit with a stored file whose parent is missing. *)
Definition orphan_record : value :=
  commit_record "2024-01-02T00:00:00.000Z" "c2"
    (VArr [entry "a.txt" (hashObject hello)]) (VStr missing_parent).

Definition orphan : world :=
  set_file (objPath (hashObject hello)) hello (with_head orphan_record).

(** A first commit with a file whose blob is missing. *)
Definition blob_missing : value :=
  commit_record "2024-01-01T00:00:00.000Z" "c1"
    (VArr [entry "a.txt" missing_blob]) (VStr "").

(** The same path staged twice with two contents and committed, then
    staged and committed again. *)
Definition twice : list cmd :=
  [ Add "a.txt"; Edit "a.txt" "second"; Add "a.txt";
    Commit "c1" "2024-01-01T00:00:00.000Z";
    Edit "a.txt" "third"; Add "a.txt";
    Commit "c2" "2024-01-02T00:00:00.000Z" ].

(** A working directory with three files, two of them with the same
    content, after [init]. *)
Definition working : world :=
  (init (World {[ "a.txt" := hello; "b.txt" := "bee";
                  "copy.txt" := hello ]} [])).2.

(** Two commits, the second of a file that the first does not have. *)
Definition first_record : value :=
  commit_record "2024-01-01T00:00:00.000Z" "c1"
    (VArr [entry "a.txt" (hashObject hello)]) (VStr "").

Definition grown : world :=
  run [ Add "a.txt"; Commit "c1" "2024-01-01T00:00:00.000Z";
        Add "b.txt"; Commit "c2" "2024-01-02T00:00:00.000Z" ] working.

(** Repositories with one of the two files of [init] missing. *)
Definition headless : world :=
  World {[ indexPath := "[]"; "a.txt" := hello ]} [].
Definition indexless : world :=
  World {[ headPath := ""; "a.txt" := hello ]} [].

(** A [HEAD] that names no object. *)
Definition stale_head : world := World {[ headPath := missing_parent ]} [].

(** An object that names itself as its parent. *)
Definition loop_record : value :=
  commit_record "2024-01-01T00:00:00.000Z" "again" (VArr []) (VStr "loop").
Definition looped : world :=
  World {[ headPath := "loop";
           objPath "loop" := JSON_stringify loop_record ]} [].

(** A file whose bytes are not well-formed UTF-8 ([66 ff 0a]), in a
    directory after [init]. *)
Definition raw : string := String "f" (String "255" newline).
Definition raw_repo : world := (init (of_disk {[ "a.bin" := raw ]})).2.

End Scenarios.

(** ** Running the model *)

Ltac unfold_m :=
  unfold mbind, M_bind, mret, M_ret, mkdir_recursive, console_log, to_text,
    member, path_join_value, lift_option, readFile, writeFile, writeFile_wx,
    emit, try_catch, bind, ret, throw in *.

Lemma headPath_ne_indexPath : headPath <> indexPath.
Proof. discriminate. Qed.

Lemma objPath_ne_headPath h : objPath h <> headPath.
Proof. discriminate. Qed.

Lemma objPath_ne_indexPath h : objPath h <> indexPath.
Proof. discriminate. Qed.


Lemma files_set_file p c w : files (set_file p c w) = <[p := c]> (files w).
Proof. reflexivity. Qed.

Lemma say_says o w : say o w = says [o] w.
Proof. reflexivity. Qed.

Lemma says_says l1 l2 w : says l2 (says l1 w) = says (l1 ++ l2) w.
Proof. unfold says. cbn. by rewrite app_assoc. Qed.

Lemma says_nil w : says [] w = w.
Proof. destruct w. unfold says. cbn. by rewrite app_nil_r. Qed.

Lemma read_only_ret {A} (a : A) : read_only (ret a).
Proof. by intros w. Qed.

Lemma read_only_throw {A} e : read_only (@throw A e).
Proof. by intros w. Qed.

Lemma read_only_emit o : read_only (emit o).
Proof. by intros w. Qed.

Lemma read_only_readFile p : read_only (readFile p).
Proof. intros w. unfold readFile. by destruct (files w !! p). Qed.

Lemma read_only_lift_option {A} e (o : option A) : read_only (lift_option e o).
Proof. destruct o; [apply read_only_ret | apply read_only_throw]. Qed.

Lemma read_only_bind {A B} (m : M A) (k : A -> M B) :
  read_only m -> (forall a, read_only (k a)) -> read_only (bind m k).
Proof.
  intros Hm Hk w. unfold bind. specialize (Hm w).
  destruct (m w) as [[a|e] w1]; cbn in *; [|done].
  by rewrite Hk.
Qed.

Lemma read_only_try_catch {A} (m : M A) (h : error -> M A) :
  read_only m -> (forall e, read_only (h e)) -> read_only (try_catch m h).
Proof.
  intros Hm Hh w. unfold try_catch. specialize (Hm w).
  destruct (m w) as [[a|e] w1]; cbn in *; [done|].
  by rewrite Hh.
Qed.

Lemma read_only_member v k : read_only (member v k).
Proof. destruct v; first [apply read_only_ret | apply read_only_throw]. Qed.

Lemma read_only_path_join_value a v : read_only (path_join_value a v).
Proof. destruct v; first [apply read_only_ret | apply read_only_throw]. Qed.

Lemma read_only_to_text v : read_only (to_text v).
Proof. apply read_only_lift_option. Qed.

Lemma bind_ext {A B} (m : M A) (k1 k2 : A -> M B) w :
  (forall a w', k1 a w' = k2 a w') -> bind m k1 w = bind m k2 w.
Proof. intros Hk. unfold bind. destruct (m w) as [[a|e] w']; [apply Hk|done]. Qed.

Lemma bind_ret {A B} (a : A) (k : A -> M B) w : bind (ret a) k w = k a w.
Proof. reflexivity. Qed.

Lemma bind_emit {B} o (k : unit -> M B) w : bind (emit o) k w = k tt (say o w).
Proof. reflexivity. Qed.

Lemma bind_console_log {B} s (k : unit -> M B) w :
  bind (console_log s) k w = k tt (say (Log s) w).
Proof. reflexivity. Qed.

Lemma bind_to_text_str {B} s (k : string -> M B) w :
  bind (to_text (VStr s)) k w = k s w.
Proof. reflexivity. Qed.

Lemma bind_path_join_str {B} a b (k : string -> M B) w :
  bind (path_join_value a (VStr b)) k w = k (path_join a b) w.
Proof. reflexivity. Qed.

Lemma bind_ok {A B} (m : M A) (k : A -> M B) w a w' :
  m w = (Ok a, w') -> bind m k w = k a w'.
Proof. unfold bind. by intros ->. Qed.

Lemma bind_throw {A B} (m : M A) (k : A -> M B) w e w' :
  m w = (Throw e, w') -> bind m k w = (Throw e, w').
Proof. unfold bind. by intros ->. Qed.

Lemma readFile_some p w c : files w !! p = Some c -> readFile p w = (Ok c, w).
Proof. unfold readFile. by intros ->. Qed.

Lemma readFile_none p w : files w !! p = None -> readFile p w = (Throw (ENOENT p), w).
Proof. unfold readFile. by intros ->. Qed.

Ltac path_ne :=
  first [ assumption
        | apply not_eq_sym; assumption
        | apply headPath_ne_indexPath
        | apply not_eq_sym, headPath_ne_indexPath
        | apply objPath_ne_headPath
        | apply not_eq_sym, objPath_ne_headPath
        | apply objPath_ne_indexPath
        | apply not_eq_sym, objPath_ne_indexPath
        | congruence ].

Lemma member_entry_path p h : member (entry p h) "path" = ret (VStr p).
Proof. reflexivity. Qed.

Lemma member_entry_hash p h : member (entry p h) "hash" = ret (VStr h).
Proof. reflexivity. Qed.

Lemma member_record_timeStamp ts m fs parent :
  member (commit_record ts m fs parent) "timeStamp" = ret (VStr ts).
Proof. reflexivity. Qed.

Lemma member_record_message ts m fs parent :
  member (commit_record ts m fs parent) "message" = ret (VStr m).
Proof. reflexivity. Qed.

Lemma member_record_files ts m fs parent :
  member (commit_record ts m fs parent) "files" = ret fs.
Proof. reflexivity. Qed.

Lemma member_record_parent ts m fs parent :
  member (commit_record ts m fs parent) "parent" = ret parent.
Proof. reflexivity. Qed.

Lemma truthy_str h : h <> "" -> truthy (VStr h) = true.
Proof. intros Hh. cbn. by destruct (String.eqb_spec h "") as [->|_]. Qed.

(** One step of a computation whose first action is known. *)
Ltac mstep :=
  first [ rewrite member_entry_path | rewrite member_entry_hash
        | rewrite member_record_timeStamp | rewrite member_record_message
        | rewrite member_record_files | rewrite member_record_parent
        | rewrite bind_ret | rewrite bind_to_text_str
        | rewrite bind_path_join_str
        | rewrite bind_console_log | rewrite bind_emit ].

Section Properties.
Context `{Runtime}.

Lemma add_throws_on_missing_file (w : world) (f : string) :
  files w !! f = None -> add f w = (Throw (ENOENT f), w).
Proof. intros Hf. unfold add. unfold_m. by rewrite Hf. Qed.

Lemma getCurrentHead_spec w : getCurrentHead w = (Ok (head_value w), w).
Proof.
  unfold getCurrentHead, head_value. unfold_m.
  by destruct (files w !! headPath).
Qed.

Lemma JSON_parse_value_text text v w :
  JSON_parse text = Some v -> JSON_parse_value (VStr text) w = (Ok v, w).
Proof. intros Hp. unfold JSON_parse_value. unfold_m. simpl. by rewrite Hp. Qed.

Lemma updateStagingArea_spec w p h text idx :
  files w !! indexPath = Some text ->
  JSON_parse text = Some (VArr idx) ->
  updateStagingArea p h w
  = (Ok tt, set_file indexPath (JSON_stringify (VArr (idx ++ [entry p h]))) w).
Proof.
  intros Hi Hp. unfold updateStagingArea, mbind, M_bind.
  rewrite (bind_ok _ _ _ _ _ (readFile_some _ _ _ Hi)).
  rewrite (bind_ok _ _ _ _ _ (JSON_parse_value_text _ _ _ Hp)).
  done.
Qed.

Lemma add_spec w f c text idx :
  files w !! f = Some c ->
  files w !! indexPath = Some text ->
  JSON_parse text = Some (VArr idx) ->
  add f w
  = (Ok tt,
     say (Log ("Added " +:+ f))
       (set_file indexPath
          (JSON_stringify (VArr (idx ++ [entry f (hashObject c)])))
          (set_file (objPath (hashObject c)) c
             (say (Log (hashObject c)) w)))).
Proof.
  intros Hf Hi Hp. unfold add.
  unfold mbind, M_bind, bind at 1. unfold readFile at 1. rewrite Hf.
  unfold bind at 1, console_log at 1, emit at 1.
  unfold bind at 1, writeFile at 1.
  unfold bind at 1.
  rewrite (updateStagingArea_spec _ f (hashObject c) text idx); [done | | done].
  rewrite files_set_file, lookup_insert_ne by path_ne.
  done.
Qed.

Lemma commit_spec w m ts text index :
  files w !! indexPath = Some text ->
  JSON_parse text = Some index ->
  let rec_text := JSON_stringify (commit_record ts m index (head_value w)) in
  commit m ts w
  = (Ok tt,
     say (Log ("Commit successfully created: " +:+ hashObject rec_text))
       (set_file indexPath (JSON_stringify (VArr []))
          (set_file headPath (hashObject rec_text)
             (set_file (objPath (hashObject rec_text)) rec_text w)))).
Proof.
  intros Hi Hp rec_text. unfold commit, mbind, M_bind.
  rewrite (bind_ok _ _ _ _ _ (readFile_some _ _ _ Hi)).
  rewrite (bind_ok _ _ _ _ _ (JSON_parse_value_text _ _ _ Hp)).
  rewrite (bind_ok _ _ _ _ _ (getCurrentHead_spec _)).
  done.
Qed.

Lemma is_plain_app l1 l2 :
  is_plain (VArr (l1 ++ l2)) = is_plain (VArr l1) && is_plain (VArr l2).
Proof. simpl. apply forallb_app. Qed.

Lemma is_plain_commit_record ts m fs parent :
  is_plain fs = true -> is_plain parent = true ->
  is_plain (commit_record ts m fs parent) = true.
Proof. intros Hf Hp. cbn. by rewrite Hf, Hp. Qed.

Lemma is_plain_head_value w : is_plain (head_value w) = true.
Proof. unfold head_value. by destruct (files w !! headPath). Qed.

(** What [commit] leaves behind, for any index that parses. *)
Lemma commit_effect w m ts index :
  JSON_roundtrip ->
  (exists text, files w !! indexPath = Some text /\ JSON_parse text = Some index) ->
  is_plain index = true ->
  let r := commit_record ts m index (head_value w) in
  exists w',
    commit m ts w = (Ok tt, w')
    /\ index_is w' []
    /\ head_is w' (hashObject (JSON_stringify r))
    /\ stored_record w' (hashObject (JSON_stringify r)) r
    /\ files w' !! objPath (hashObject (JSON_stringify r))
       = Some (JSON_stringify r)
    /\ (forall q, q <> indexPath -> q <> headPath ->
        q <> objPath (hashObject (JSON_stringify r)) ->
        files w' !! q = files w !! q).
Proof.
  intros RT (text & Hi & Hp) Hplain r.
  eexists. split; [by apply (commit_spec w m ts text index)|].
  fold r.
  assert (Hs : files
    (say (Log ("Commit successfully created: " +:+ hashObject (JSON_stringify r)))
       (set_file indexPath (JSON_stringify (VArr []))
          (set_file headPath (hashObject (JSON_stringify r))
             (set_file (objPath (hashObject (JSON_stringify r)))
                (JSON_stringify r) w))))
    !! objPath (hashObject (JSON_stringify r)) = Some (JSON_stringify r)).
  { cbn. rewrite lookup_insert_ne by path_ne.
    rewrite lookup_insert_ne by path_ne.
    by rewrite lookup_insert_eq. }
  split; [|split; [|split; [|split; [exact Hs|]]]].
  - exists (JSON_stringify (VArr [])). split; [|by apply RT].
    cbn. by rewrite lookup_insert_eq.
  - unfold head_is. cbn.
    rewrite lookup_insert_ne by path_ne.
    by rewrite lookup_insert_eq.
  - exists (JSON_stringify r). repeat split; [exact Hs|].
    apply RT, is_plain_commit_record; [done|apply is_plain_head_value].
  - intros q Hq1 Hq2 Hq3. cbn.
    rewrite !lookup_insert_ne by path_ne. done.
Qed.

(** What [add] leaves behind on a readable file. *)
Lemma add_effect w f c idx :
  JSON_roundtrip ->
  files w !! f = Some c ->
  index_is w idx ->
  is_plain (VArr idx) = true ->
  exists w',
    add f w = (Ok tt, w')
    /\ index_is w' (idx ++ [entry f (hashObject c)])
    /\ files w' !! objPath (hashObject c) = Some c
    /\ (forall q, q <> indexPath -> q <> objPath (hashObject c) ->
        files w' !! q = files w !! q).
Proof.
  intros RT Hf (text & Hi & Hp) Hplain.
  eexists. split; [by apply (add_spec w f c text idx)|].
  repeat split.
  - eexists. split; [cbn; by rewrite lookup_insert_eq|].
    apply RT. rewrite is_plain_app, Hplain. reflexivity.
  - cbn. rewrite lookup_insert_ne by path_ne.
    by rewrite lookup_insert_eq.
  - intros q Hq1 Hq2. cbn. rewrite !lookup_insert_ne by path_ne. done.
Qed.

(** C1: on an initialised repository (HEAD holds [h0], the index is the
    sequence [idx]) with a readable file [f], [add f] and then
    [commit m] both return; afterwards the index is the empty sequence
    and HEAD is the hash of a stored commit record whose [files] are
    the entries staged just before the commit, in order, and whose
    [parent] is the HEAD value read just before the commit. *)
Theorem add_then_commit (w : world) (f m ts c h0 : string) (idx : list value) :
  JSON_roundtrip ->
  files w !! f = Some c ->
  head_is w h0 ->
  index_is w idx ->
  is_plain (VArr idx) = true ->
  exists w1 w2 staged before r,
    add f w = (Ok tt, w1)
    /\ index_is w1 staged
    /\ staged = idx ++ [entry f (hashObject c)]
    /\ getCurrentHead w1 = (Ok before, w1)
    /\ before = VStr h0
    /\ commit m ts w1 = (Ok tt, w2)
    /\ index_is w2 []
    /\ head_is w2 (hashObject (JSON_stringify r))
    /\ stored_record w2 (hashObject (JSON_stringify r)) r
    /\ get r "files" = VArr staged
    /\ get r "parent" = before.
Proof.
  intros RT Hf Hh Hi Hplain.
  destruct (add_effect w f c idx RT Hf Hi Hplain) as (w1 & Ha & Hi1 & _ & Hrest).
  assert (Hh1 : head_value w1 = VStr h0).
  { unfold head_value. rewrite Hrest.
    - by rewrite Hh.
    - path_ne.
    - path_ne. }
  assert (Hplain1 : is_plain (VArr (idx ++ [entry f (hashObject c)])) = true).
  { rewrite is_plain_app, Hplain. reflexivity. }
  destruct (commit_effect w1 m ts _ RT Hi1 Hplain1)
    as (w2 & Hc & Hi2 & Hh2 & Hs2 & _ & _).
  rewrite Hh1 in Hh2, Hs2.
  exists w1, w2, (idx ++ [entry f (hashObject c)]), (VStr h0).
  eexists. repeat split; try eassumption; try reflexivity.
  by rewrite getCurrentHead_spec, Hh1.
Qed.

(** C8: [commit] with an empty index returns without an error; a
    commit record with an empty [files] sequence (and the message, the
    time stamp and the current HEAD as parent) is stored under its
    hash, HEAD holds that hash and the index is still empty. *)
Theorem commit_empty_index (w : world) (m ts : string) :
  JSON_roundtrip ->
  index_is w [] ->
  exists w' r,
    commit m ts w = (Ok tt, w')
    /\ stored_record w' (hashObject (JSON_stringify r)) r
    /\ r = commit_record ts m (VArr []) (head_value w)
    /\ get r "files" = VArr []
    /\ head_is w' (hashObject (JSON_stringify r))
    /\ index_is w' [].
Proof.
  intros RT Hi.
  destruct (commit_effect w m ts (VArr []) RT Hi eq_refl)
    as (w' & Hc & Hi' & Hh' & Hs' & _ & _).
  eexists _, _. split_and!; try eassumption; reflexivity.
Qed.

(** [init] on a world without [HEAD] and without [index]. *)
Lemma init_fresh w :
  files w !! headPath = None ->
  files w !! indexPath = None ->
  init w
  = (Ok tt, set_file indexPath (JSON_stringify (VArr [])) (set_file headPath "" w)).
Proof.
  intros Hh Hi. unfold init. unfold_m. rewrite Hh.
  rewrite files_set_file, lookup_insert_ne by path_ne. by rewrite Hi.
Qed.

(** [init] on a world where [HEAD] exists: the first write with the
    flag [wx] fails and the handler only prints. *)
Lemma init_again w h :
  head_is w h ->
  init w = (Ok tt, say (Log "Already initialised the .duck folder") w).
Proof. intros Hh. unfold init. unfold_m. by rewrite Hh. Qed.

(** [init] writes with the flag [wx] only: a file that exists keeps
    its content. *)
Lemma init_keeps_files w p c :
  files w !! p = Some c -> files (init w).2 !! p = Some c.
Proof.
  intros Hp. unfold init. unfold_m.
  destruct (files w !! headPath) as [h|] eqn:Hh; [done|].
  rewrite files_set_file.
  assert (Hp1 : p <> headPath) by congruence.
  destruct (files w !! indexPath) as [i|] eqn:Hi.
  - rewrite lookup_insert_ne, Hi by path_ne. cbn.
    by rewrite lookup_insert_ne by path_ne.
  - rewrite lookup_insert_ne, Hi by path_ne. cbn.
    assert (Hp2 : p <> indexPath) by congruence.
    by rewrite !lookup_insert_ne by path_ne.
Qed.

(** C7: [init] on a world without [HEAD] and [index] returns with HEAD
    empty and the index the empty sequence, and touches no object;
    [init] on a repository whose [HEAD] exists changes no file (HEAD,
    index and objects stay as they are) and only prints a message, so a
    second [init] changes nothing; and in any world [init] leaves every
    file that exists as it is. *)
Theorem init_fresh_and_idempotent :
  JSON_roundtrip ->
  (forall w,
     files w !! headPath = None -> files w !! indexPath = None ->
     exists w',
       init w = (Ok tt, w') /\ head_is w' "" /\ index_is w' []
       /\ (forall k, files w' !! objPath k = files w !! objPath k)
       /\ exists w'', init w' = (Ok tt, w'') /\ files w'' = files w')
  /\ (forall w h,
       head_is w h ->
       exists w', init w = (Ok tt, w') /\ files w' = files w)
  /\ (forall w p c,
       files w !! p = Some c -> files (init w).2 !! p = Some c).
Proof.
  intros RT. split_and!.
  - intros w Hh Hi. eexists. split; [by apply init_fresh|].
    assert (Hh' : head_is
      (set_file indexPath (JSON_stringify (VArr [])) (set_file headPath "" w)) "").
    { unfold head_is. cbn. rewrite lookup_insert_ne by path_ne.
      by rewrite lookup_insert_eq. }
    split_and!.
    + done.
    + eexists. split; [cbn; by rewrite lookup_insert_eq|]. by apply RT.
    + intros k. cbn. rewrite !lookup_insert_ne by path_ne. done.
    + eexists. split; [by apply (init_again _ "")|done].
  - intros w h Hh. eexists. split; [by apply (init_again w h)|done].
  - apply init_keeps_files.
Qed.

(** [updateStagingArea] writes no file but the index. *)
Lemma updateStagingArea_frame w p h q :
  q <> indexPath ->
  files (updateStagingArea p h w).2 !! q = files w !! q.
Proof.
  intros Hq. unfold updateStagingArea, JSON_parse_value, push. unfold_m.
  destruct (files w !! indexPath) as [text|]; [|done]. cbn.
  destruct (JSON_parse text) as [[]|]; try done.
  cbn. by rewrite lookup_insert_ne by path_ne.
Qed.

(** [add] of a readable file stores its text under the hash of the
    text, however the rest of [add] ends. *)
Lemma add_stores_blob (w : world) (f c : string) :
  files w !! f = Some c ->
  exists r w',
    add f w = (r, w')
    /\ files w' !! objPath (hashObject c) = Some c
    /\ getFileContent (VStr (hashObject c)) w' = (Ok c, w').
Proof.
  intros Hf.
  destruct (add f w) as [r w'] eqn:Ha. exists r, w'. split; [done|].
  assert (Hs : files w' !! objPath (hashObject c) = Some c).
  { revert Ha. unfold add, mbind, M_bind.
    rewrite (bind_ok _ _ _ _ _ (readFile_some _ _ _ Hf)).
    unfold bind at 1, console_log at 1, emit at 1.
    unfold bind at 1, writeFile at 1.
    set (w1 := set_file _ c _).
    pose proof (updateStagingArea_frame w1 f (hashObject c)
                  (objPath (hashObject c)) (objPath_ne_indexPath _)) as Hfr.
    unfold bind at 1.
    destruct (updateStagingArea f (hashObject c) w1) as [[[]|e] w2];
      intros [= <- <-]; cbn in *; rewrite Hfr; subst w1; cbn;
      by rewrite lookup_insert_eq. }
  split; [done|].
  unfold getFileContent. unfold_m. fold (objPath (hashObject c)). by rewrite Hs.
Qed.

Lemma utf8_text_replacement s :
  utf8_text (replacement +:+ s) = replacement +:+ utf8_text s.
Proof. reflexivity. Qed.

Lemma utf8_text_idempotent_upto n :
  forall bytes, (String.length bytes <= n)%nat ->
    utf8_text (utf8_text bytes) = utf8_text bytes.
Proof.
  induction n as [|n IH]; intros [|b r] Hlen; try reflexivity;
    cbn [String.length] in Hlen; [lia|].
  assert (IHr : utf8_text (utf8_text r) = utf8_text r) by (apply IH; lia).
  cbn [utf8_text].
  destruct (between 0 127 b) eqn:Hb.
  { cbn [utf8_text]. by rewrite Hb, IHr. }
  destruct (lead b) as [[[k lo] hi]|] eqn:Hl;
    [|by rewrite utf8_text_replacement, IHr].
  destruct r as [|c1 r1]; [reflexivity|].
  destruct (between lo hi c1) eqn:H1; cbn [negb];
    [|by rewrite utf8_text_replacement, IHr].
  assert (IHr1 : utf8_text (utf8_text r1) = utf8_text r1).
  { apply IH. cbn [String.length] in Hlen. lia. }
  destruct k as [|[|[|k]]].
  2: { cbn [utf8_text]. by rewrite Hb, Hl, H1, IHr1. }
  all: destruct r1 as [|c2 r2]; [reflexivity|];
    destruct (between 128 191 c2) eqn:H2; cbn [negb];
      [|by rewrite utf8_text_replacement, IHr1];
    assert (IHr2 : utf8_text (utf8_text r2) = utf8_text r2)
      by (apply IH; cbn [String.length] in Hlen; lia).
  2: { cbn [utf8_text]. by rewrite Hb, Hl, H1, H2, IHr2. }
  all: destruct r2 as [|c3 r3]; [reflexivity|];
    destruct (between 128 191 c3) eqn:H3; cbn [negb];
      [|by rewrite utf8_text_replacement, IHr2];
    assert (IHr3 : utf8_text (utf8_text r3) = utf8_text r3)
      by (apply IH; cbn [String.length] in Hlen; lia);
    cbn [utf8_text]; by rewrite Hb, Hl, H1, H2, H3, IHr3.
Qed.

(** A decoded text is kept by the decoding: what the tool writes it
    reads back as it wrote it. *)
Lemma utf8_text_idempotent bytes :
  utf8_text (utf8_text bytes) = utf8_text bytes.
Proof. by apply (utf8_text_idempotent_upto (String.length bytes)). Qed.

(** Reading a file of a directory returns the decoding of its bytes,
    and writing a text keeps the world that of a directory. *)
Lemma readFile_of_disk disk p bytes :
  disk !! p = Some bytes ->
  readFile p (of_disk disk) = (Ok (utf8_text bytes), of_disk disk).
Proof.
  intros Hp. unfold readFile, of_disk. cbn [files].
  by rewrite lookup_fmap, Hp.
Qed.

Lemma writeFile_of_disk disk p bytes :
  writeFile p (utf8_text bytes) (of_disk disk)
  = (Ok tt, of_disk (<[p := utf8_text bytes]> disk)).
Proof.
  unfold writeFile, set_file, of_disk. cbn [files console].
  by rewrite fmap_insert, utf8_text_idempotent.
Qed.

(** C6, amended: [add] of a file that holds [bytes] stores the text
    that the decoding of [bytes] as [utf-8] gives, under the hash of
    that text, and reading the object of that hash returns that text
    unchanged; the text is one that the decoding keeps.  When [bytes]
    are well-formed UTF-8 the text is [bytes], so the bytes are stored
    under their hash and read back unchanged. *)
Theorem blob_round_trip (w : world) (f bytes : string) :
  files w !! f = Some (utf8_text bytes) ->
  utf8_text (utf8_text bytes) = utf8_text bytes
  /\ (exists r w',
        add f w = (r, w')
        /\ files w' !! objPath (hashObject (utf8_text bytes))
           = Some (utf8_text bytes)
        /\ getFileContent (VStr (hashObject (utf8_text bytes))) w'
           = (Ok (utf8_text bytes), w'))
  /\ (utf8_text bytes = bytes ->
      exists r w',
        add f w = (r, w')
        /\ files w' !! objPath (hashObject bytes) = Some bytes
        /\ getFileContent (VStr (hashObject bytes)) w' = (Ok bytes, w')).
Proof.
  intros Hf. split_and!.
  - apply utf8_text_idempotent.
  - by apply add_stores_blob.
  - intros Heq. rewrite Heq in Hf. by apply add_stores_blob.
Qed.

(** C3, amended: for a name [h] that is one segment of a path, as a
    digest is: when no object is stored under [h],
    [showCommitDiff h] prints the failed read and then "Commit not
    found", and returns normally; when the object stored under [h] is
    not JSON, as a blob mostly is not, it throws a SyntaxError and
    prints nothing. *)
Theorem show_unknown_hash (w : world) (h : string) :
  JSON_parse_null ->
  segment h = true ->
  (files w !! objPath h = None ->
   showCommitDiff h w
   = (Ok tt,
      say (Log "Commit not found")
        (say (LogError "Failed to read the commit data" (ENOENT (objPath h)))
           w)))
  /\ (forall text,
        files w !! objPath h = Some text -> JSON_parse text = None ->
        showCommitDiff h w = (Throw SyntaxError, w)).
Proof.
  intros Hnull _. split.
  - intros Hh. unfold showCommitDiff, getCommitData, JSON_parse_value.
    unfold_m. fold (objPath h). rewrite Hh. cbn.
    unfold JSON_parse_null in Hnull. by rewrite Hnull.
  - intros text Hs Hp.
    unfold showCommitDiff, getCommitData, JSON_parse_value.
    unfold_m. fold (objPath h). rewrite Hs. cbn. by rewrite Hp.
Qed.

Lemma write_part_spec p w : write_part p w = (Ok tt, say (part_out p) w).
Proof. unfold write_part, part_out. by destruct (added p), (removed p). Qed.

Lemma forEach_write_part ps w :
  forEach write_part ps w = (Ok tt, says (map part_out ps) w).
Proof.
  revert w. induction ps as [|p ps IH]; intros w; cbn.
  - by rewrite says_nil.
  - unfold mbind, M_bind. rewrite (bind_ok _ _ _ _ _ (write_part_spec p w)).
    rewrite IH, say_says, says_says. done.
Qed.

Lemma forEach_app {A} (f : A -> M unit) l1 l2 w w1 :
  forEach f l1 w = (Ok tt, w1) ->
  forEach f (l1 ++ l2) w = forEach f l2 w1.
Proof.
  revert w. induction l1 as [|a l1 IH]; intros w; cbn.
  - by intros [= ->].
  - unfold mbind, M_bind, bind. destruct (f a w) as [[[]|e] w2]; [|done].
    apply IH.
Qed.

Lemma forEach_app_throw {A} (f : A -> M unit) l1 l2 w e w1 :
  forEach f l1 w = (Throw e, w1) ->
  forEach f (l1 ++ l2) w = (Throw e, w1).
Proof.
  revert w. induction l1 as [|a l1 IH]; intros w; cbn; [done|].
  unfold mbind, M_bind, bind. destruct (f a w) as [[[]|e'] w2]; [apply IH|done].
Qed.

Lemma read_only_forEach {A} (f : A -> M unit) l :
  (forall a, read_only (f a)) -> read_only (forEach f l).
Proof.
  intros Hf. induction l as [|a l IH]; cbn.
  - apply read_only_ret.
  - apply read_only_bind; [apply Hf|]. intros _. apply IH.
Qed.

Lemma read_only_getFileContent v : read_only (getFileContent v).
Proof.
  apply read_only_bind; [apply read_only_path_join_value|].
  intros p. apply read_only_readFile.
Qed.

Lemma read_only_getCommitData v : read_only (getCommitData v).
Proof.
  apply read_only_bind; [apply read_only_path_join_value|]. intros p.
  apply read_only_try_catch.
  - apply read_only_bind; [apply read_only_readFile|]. intros. apply read_only_ret.
  - intros e. apply read_only_bind; [apply read_only_emit|]. intros.
    apply read_only_ret.
Qed.

Lemma read_only_JSON_parse_value v : read_only (JSON_parse_value v).
Proof.
  apply read_only_bind; [apply read_only_to_text|]. intros.
  apply read_only_lift_option.
Qed.

Lemma read_only_find_path fp l : read_only (find_path fp l).
Proof.
  induction l as [|file l IH]; cbn; [apply read_only_ret|].
  apply read_only_bind; [apply read_only_member|]. intros p.
  destruct (strict_eq p fp); [apply read_only_ret|apply IH].
Qed.

Lemma read_only_getParentFileContent pcd fp :
  read_only (getParentFileContent pcd fp).
Proof.
  apply read_only_bind; [apply read_only_member|]. intros fs.
  apply read_only_bind.
  { destruct fs; first [apply read_only_throw | apply read_only_find_path]. }
  intros pf. destruct (truthy pf); [|apply read_only_ret].
  apply read_only_bind; [apply read_only_member|]. intros hash.
  apply read_only_bind; [apply read_only_getFileContent|]. intros.
  apply read_only_ret.
Qed.

Lemma read_only_write_part p : read_only (write_part p).
Proof.
  unfold write_part. destruct (added p), (removed p); apply read_only_emit.
Qed.

(** [showCommitDiff] reads and prints; it writes no file. *)
Lemma read_only_show_file cd file : read_only (show_file cd file).
Proof.
  apply read_only_bind; [apply read_only_member|]. intros p.
  apply read_only_bind; [apply read_only_to_text|]. intros shown.
  apply read_only_bind; [apply read_only_emit|]. intros _.
  apply read_only_bind; [apply read_only_member|]. intros hash.
  apply read_only_bind; [apply read_only_getFileContent|]. intros content.
  apply read_only_bind; [apply read_only_emit|]. intros _.
  apply read_only_bind; [apply read_only_member|]. intros parent.
  destruct (truthy parent); [|apply read_only_emit].
  apply read_only_bind; [apply read_only_getCommitData|]. intros text.
  apply read_only_bind; [apply read_only_JSON_parse_value|]. intros pcd.
  apply read_only_bind; [apply read_only_getParentFileContent|].
  intros [before|]; [|apply read_only_emit].
  apply read_only_bind; [apply read_only_emit|]. intros _.
  apply read_only_bind.
  { apply read_only_forEach. apply read_only_write_part. }
  intros _. apply read_only_emit.
Qed.

Lemma getFileContent_some w h c :
  files w !! objPath h = Some c -> getFileContent (VStr h) w = (Ok c, w).
Proof. intros Hc. unfold getFileContent. unfold_m. fold (objPath h). by rewrite Hc. Qed.

Lemma getFileContent_none w h :
  files w !! objPath h = None ->
  getFileContent (VStr h) w = (Throw (ENOENT (objPath h)), w).
Proof. intros Hc. unfold getFileContent. unfold_m. fold (objPath h). by rewrite Hc. Qed.

Lemma getCommitData_some w h c :
  files w !! objPath h = Some c -> getCommitData (VStr h) w = (Ok (VStr c), w).
Proof. intros Hc. unfold getCommitData. unfold_m. fold (objPath h). by rewrite Hc. Qed.

Lemma getCommitData_none w h :
  files w !! objPath h = None ->
  getCommitData (VStr h) w
  = (Ok VNull, say (LogError "Failed to read the commit data" (ENOENT (objPath h))) w).
Proof. intros Hc. unfold getCommitData. unfold_m. fold (objPath h). by rewrite Hc. Qed.

Lemma showCommitDiff_stored w k text ts m l parent :
  files w !! objPath k = Some text ->
  JSON_parse text = Some (commit_record ts m (VArr l) parent) ->
  showCommitDiff k w
  = forEach (show_file (commit_record ts m (VArr l) parent)) l
      (say (Log "Changes in the last commit are: ") w).
Proof.
  intros Hk Hp. unfold showCommitDiff, mbind, M_bind.
  rewrite (bind_ok _ _ _ _ _ (getCommitData_some _ _ _ Hk)).
  rewrite (bind_ok _ _ _ _ _ (JSON_parse_value_text _ _ _ Hp)).
  done.
Qed.

(** A file of a commit whose [parent] is falsy. *)
Lemma show_file_no_parent w ts m fs parent p h c :
  truthy parent = false ->
  files w !! objPath h = Some c ->
  show_file (commit_record ts m fs parent) (entry p h) w
  = (Ok tt, says [Log ("File: " +:+ p); Log c; Log "First commit"] w).
Proof.
  intros Hpar Hc. unfold show_file, mbind, M_bind. repeat mstep.
  rewrite (bind_ok _ _ _ _ _ (getFileContent_some (say _ w) h c Hc)).
  repeat mstep. rewrite Hpar.
  unfold console_log, emit. by rewrite !say_says, !says_says.
Qed.

(** A file whose blob is not in the store. *)
Lemma show_file_missing_blob w cd p h :
  files w !! objPath h = None ->
  show_file cd (entry p h) w
  = (Throw (ENOENT (objPath h)), say (Log ("File: " +:+ p)) w).
Proof.
  intros Hc. unfold show_file, mbind, M_bind. repeat mstep.
  by rewrite (bind_throw _ _ _ _ _ (getFileContent_none (say _ w) h Hc)).
Qed.

(** An empty-string parent and a [null] parent are not told apart. *)
Lemma show_file_empty_parent_as_null ts m fs file w :
  show_file (commit_record ts m fs (VStr "")) file w
  = show_file (commit_record ts m fs VNull) file w.
Proof.
  unfold show_file, mbind, M_bind.
  repeat (apply bind_ext; intros ? ?). reflexivity.
Qed.

Lemma find_path_first_match (pre : list (string * string)) p h post w :
  Forall (fun e => e.1 <> p) pre ->
  find_path (VStr p) (map (fun e => entry e.1 e.2) pre ++ entry p h :: post) w
  = (Ok (entry p h), w).
Proof.
  induction 1 as [|[p' h'] pre Hne _ IH];
    cbn [map app find_path fst snd]; unfold mbind, M_bind;
    rewrite member_entry_path, bind_ret; cbn [strict_eq].
  - by rewrite String.eqb_refl.
  - cbn in Hne. destruct (String.eqb_spec p' p) as [->|_]; [done|]. apply IH.
Qed.

(** [getParentFileContent] takes the first entry of the parent's file
    list whose path matches, whatever follows it. *)
Lemma getParentFileContent_first_match w ts m parent
      (pre : list (string * string)) p h post c :
  Forall (fun e => e.1 <> p) pre ->
  files w !! objPath h = Some c ->
  getParentFileContent
    (commit_record ts m
       (VArr (map (fun e => entry e.1 e.2) pre ++ entry p h :: post)) parent)
    (VStr p) w
  = (Ok (Some c), w).
Proof.
  intros Hpre Hc. unfold getParentFileContent, mbind, M_bind. repeat mstep.
  rewrite (bind_ok _ _ _ _ _ (find_path_first_match pre p h post w Hpre)).
  cbn [entry truthy]. repeat mstep.
  by rewrite (bind_ok _ _ _ _ _ (getFileContent_some _ _ _ Hc)).
Qed.

(** A file of a commit whose parent lists the same path: the diff is
    taken against the first such entry of the parent. *)
Lemma show_file_diff w ts m fs ph ptext pts pm pparent
      (pre : list (string * string)) p hb post h before after :
  ph <> "" ->
  files w !! objPath ph = Some ptext ->
  JSON_parse ptext
  = Some (commit_record pts pm
            (VArr (map (fun e => entry e.1 e.2) pre ++ entry p hb :: post))
            pparent) ->
  Forall (fun e => e.1 <> p) pre ->
  files w !! objPath hb = Some before ->
  files w !! objPath h = Some after ->
  show_file (commit_record ts m fs (VStr ph)) (entry p h) w
  = (Ok tt,
     says ([Log ("File: " +:+ p); Log after; Log (String "010" "Diff:")]
           ++ map part_out (diffLines before after) ++ [Log ""]) w).
Proof.
  intros Hph Hpt Hpp Hpre Hb Ha. unfold show_file, mbind, M_bind. repeat mstep.
  rewrite (bind_ok _ _ _ _ _ (getFileContent_some (say _ w) h after Ha)).
  repeat mstep. rewrite (truthy_str ph Hph).
  rewrite (bind_ok _ _ _ _ _ (getCommitData_some (say _ (say _ w)) ph ptext Hpt)).
  rewrite (bind_ok _ _ _ _ _ (JSON_parse_value_text _ _ _ Hpp)).
  rewrite (bind_ok _ _ _ _ _
             (getParentFileContent_first_match (say _ (say _ w)) _ _ _ pre p hb
                post before Hpre Hb)).
  mstep. unfold bind at 1. rewrite forEach_write_part.
  unfold console_log, emit. rewrite !say_says, !says_says.
  done.
Qed.

(** ** Histories *)

Lemma objects_keptb_sound w w' : objects_keptb w w' = true -> objects_kept w w'.
Proof.
  intros Hb k c Hk. unfold objects_keptb in Hb.
  rewrite forallb_forall in Hb.
  assert (Hin : In (objPath k, c) (map_to_list (files w))).
  { apply list_elem_of_In, elem_of_map_to_list, Hk. }
  specialize (Hb _ Hin). cbn [fst snd] in Hb.
  assert (Hpre : String.prefix (objPath "") (objPath k) = true).
  { unfold objPath, path_join, objectsPath, repoPath, path_join.
    cbn. by destruct k. }
  rewrite Hpre in Hb. by apply bool_decide_eq_true in Hb.
Qed.

Lemma chain_ok_kept w w' recs :
  objects_kept w w' -> chain_ok w recs -> chain_ok w' recs.
Proof.
  intros Hk. induction recs as [|[k r] older IH]; [done|].
  intros (Hr & Hs & Hh & Hc). repeat split; auto.
Qed.

Lemma chain_ok_linked w recs : chain_ok w recs -> linked recs.
Proof.
  induction recs as [|[k r] older IH]; [done|].
  intros ((ts & m & fs & -> & _) & _ & _ & Hc). split; [done|auto].
Qed.

Lemma chain_ok_stored w recs :
  JSON_roundtrip ->
  chain_ok w recs -> Forall (fun kr => stored_record w kr.1 kr.2) recs.
Proof.
  intros RT. induction recs as [|[k r] older IH]; [constructor|].
  intros ((ts & m & fs & -> & Hplain) & Hs & Hh & Hc). constructor; [|auto].
  eexists. repeat split; [exact Hs|exact Hh|].
  apply RT, is_plain_commit_record; done.
Qed.

Lemma log_turn_parsed w k text ts m fs parent :
  files w !! objPath k = Some text ->
  JSON_parse text = Some (commit_record ts m fs parent) ->
  log_turn (VStr k) w
  = (Ok parent, says [Log log_separator; Log (log_entry k ts m)] w).
Proof.
  intros Hs Hp. unfold log_turn, mbind, M_bind. repeat mstep.
  fold (objPath k). rewrite (bind_ok _ _ _ _ _ (readFile_some _ _ _ Hs)).
  rewrite (bind_ok _ _ _ _ _ (JSON_parse_value_text _ _ _ Hp)).
  repeat mstep. by rewrite !say_says, !says_says.
Qed.

Lemma log_turn_stored w k ts m fs parent :
  JSON_roundtrip ->
  is_plain fs = true -> is_plain parent = true ->
  files w !! objPath k = Some (JSON_stringify (commit_record ts m fs parent)) ->
  log_turn (VStr k) w
  = (Ok parent, says [Log log_separator; Log (log_entry k ts m)] w).
Proof.
  intros RT Hfs Hpar Hs. apply (log_turn_parsed w k _ ts m fs parent Hs).
  by apply RT, is_plain_commit_record.
Qed.

Lemma log_turn_missing w k :
  files w !! objPath k = None ->
  log_turn (VStr k) w = (Throw (ENOENT (objPath k)), w).
Proof.
  intros Hs. unfold log_turn, mbind, M_bind. repeat mstep.
  fold (objPath k). by rewrite (bind_throw _ _ _ _ _ (readFile_none _ _ Hs)).
Qed.

(** [log] walks a stored history from its tip to its end. *)
Lemma log_loop_chain recs :
  JSON_roundtrip -> digest_nonempty ->
  forall w fuel,
    chain_ok w recs -> (length recs <= fuel)%nat ->
    log_loop fuel (VStr (tip recs)) w = Some (Ok tt, says (log_output recs) w).
Proof.
  intros RT NE. induction recs as [|[k r] older IH]; intros w fuel Hc Hfuel.
  - destruct fuel; cbn; by rewrite says_nil.
  - destruct Hc as ((ts & m & fs & -> & Hplain) & Hs & Hh & Hc).
    destruct fuel as [|fuel]; [cbn in Hfuel; lia|].
    cbn [tip log_loop]. rewrite truthy_str by (rewrite Hh; apply NE).
    rewrite (log_turn_stored w k ts m fs (VStr (tip older)) RT Hplain eq_refl Hs).
    rewrite (IH _ fuel).
    + by rewrite says_says.
    + eapply chain_ok_kept; [|exact Hc]. by intros ? ?.
    + cbn in Hfuel. lia.
Qed.

Lemma not_repo_path f :
  String.prefix repoPath f = false ->
  f <> headPath /\ f <> indexPath /\ forall k, f <> objPath k.
Proof.
  intros Hf. split; [|split; [|intros k]]; intros ->; discriminate Hf.
Qed.

Lemma exec_add_ok w recs f :
  JSON_roundtrip ->
  repo_ok w recs -> objects_kept w (exec (Add f) w) ->
  repo_ok (exec (Add f) w) recs.
Proof.
  intros RT (Hh & (idx & Hi & Hplain) & Hc) Hk. cbn [exec] in *.
  destruct (files w !! f) as [c|] eqn:Hf.
  - destruct (add_effect w f c idx RT Hf Hi Hplain) as (w' & Ha & Hi' & _ & Hrest).
    rewrite Ha in *. cbn [snd] in *. repeat split.
    + unfold head_is. rewrite Hrest; [done| |]; path_ne.
    + eexists. split; [exact Hi'|]. rewrite is_plain_app, Hplain. reflexivity.
    + by apply (chain_ok_kept w).
  - rewrite (add_throws_on_missing_file w f Hf). cbn [snd].
    repeat split; eauto.
Qed.

Lemma exec_commit_ok w recs m ts :
  JSON_roundtrip ->
  repo_ok w recs -> objects_kept w (exec (Commit m ts) w) ->
  exists k r,
    repo_ok (exec (Commit m ts) w) ((k, r) :: recs)
    /\ get r "message" = VStr m /\ get r "timeStamp" = VStr ts.
Proof.
  intros RT (Hh & (idx & Hi & Hplain) & Hc) Hk. cbn [exec] in *.
  assert (Hv : head_value w = VStr (tip recs)).
  { unfold head_value. by rewrite Hh. }
  destruct (commit_effect w m ts (VArr idx) RT Hi Hplain)
    as (w' & Hcm & Hi' & Hh' & _ & Hs & _).
  rewrite Hv in *. rewrite Hcm in *. cbn [snd] in *.
  set (r := commit_record ts m (VArr idx) (VStr (tip recs))) in *.
  exists (hashObject (JSON_stringify r)), r. repeat split.
  - exact Hh'.
  - exists []. split; [exact Hi'|done].
  - by exists ts, m, (VArr idx).
  - exact Hs.
  - by apply (chain_ok_kept w).
Qed.

Lemma exec_edit_ok w recs f c :
  String.prefix repoPath f = false ->
  repo_ok w recs -> repo_ok (exec (Edit f c) w) recs.
Proof.
  intros Hf (Hh & (idx & (text & Hi & Hp) & Hplain) & Hc).
  destruct (not_repo_path f Hf) as (Hf1 & Hf2 & Hf3). cbn. repeat split.
  - unfold head_is. cbn. by rewrite lookup_insert_ne.
  - exists idx. split; [|done]. exists text. split; [|done].
    cbn. by rewrite lookup_insert_ne.
  - eapply chain_ok_kept; [|exact Hc]. intros k c' Hk. cbn.
    by rewrite lookup_insert_ne.
Qed.

Lemma run_repo_ok cmds :
  JSON_roundtrip ->
  forall w recs0,
    repo_ok w recs0 -> clean cmds w ->
    exists recs,
      repo_ok (run cmds w) (recs ++ recs0)
      /\ map (fun kr => (get kr.2 "message", get kr.2 "timeStamp")) recs
         = rev (commits_of cmds).
Proof.
  intros RT. induction cmds as [|c cmds IH]; intros w recs0 Hok Hclean.
  - by exists [].
  - destruct Hclean as [Hstep Hclean]. destruct c as [f|m ts|f c].
    + destruct (IH _ recs0 (exec_add_ok w recs0 f RT Hok Hstep) Hclean)
        as (recs & Hok' & Hmap).
      by exists recs.
    + destruct (exec_commit_ok w recs0 m ts RT Hok Hstep)
        as (k & r & Hok1 & Hm & Hts).
      destruct (IH _ _ Hok1 Hclean) as (recs & Hok' & Hmap).
      exists (recs ++ [(k, r)]). split.
      * by rewrite <- app_assoc.
      * rewrite map_app, Hmap. cbn. by rewrite Hm, Hts.
    + destruct (IH _ recs0 (exec_edit_ok w recs0 f c Hstep Hok) Hclean)
        as (recs & Hok' & Hmap).
      by exists recs.
Qed.

Lemma linked_last recs k r :
  linked recs -> last recs = Some (k, r) -> get r "parent" = VStr "".
Proof.
  induction recs as [|[k1 r1] [|kr2 older] IH]; [done| |].
  - intros [Hp _] [= -> ->]. exact Hp.
  - intros [_ Hl] Hlast. apply IH; [exact Hl|].
    by rewrite last_cons_cons in Hlast.
Qed.

(** C2: after a session that starts on a fresh repository and makes N
    commits without a hash collision, [log] with fuel N or more returns
    and prints exactly the N commits, newest first; each is stored under
    its hash, the parent of each is the hash of the next, and the
    parent of the last (oldest) one is the empty string, which is not
    [null]. *)
Theorem log_after_commits (w0 : world) (cmds : list cmd) :
  JSON_roundtrip -> digest_nonempty ->
  head_is w0 "" -> index_is w0 [] -> clean cmds w0 ->
  exists recs,
    map (fun kr => (get kr.2 "message", get kr.2 "timeStamp")) recs
    = rev (commits_of cmds)
    /\ length recs = length (commits_of cmds)
    /\ (forall fuel,
        length recs <= fuel ->
        log fuel (run cmds w0)
        = Some (Ok tt, says (log_output recs) (run cmds w0)))
    /\ Forall (fun kr => stored_record (run cmds w0) kr.1 kr.2) recs
    /\ linked recs
    /\ (forall k r, last recs = Some (k, r) ->
        get r "parent" = VStr "" /\ get r "parent" <> VNull).
Proof.
  intros RT NE Hh Hi Hclean.
  assert (Hok : repo_ok w0 []).
  { repeat split; [exact Hh|]. by exists []. }
  destruct (run_repo_ok cmds RT w0 [] Hok Hclean) as (recs & Hok' & Hmap).
  rewrite app_nil_r in Hok'. destruct Hok' as (Hh' & _ & Hc).
  exists recs. split_and!.
  - exact Hmap.
  - apply (f_equal length) in Hmap. by rewrite length_map, length_rev in Hmap.
  - intros fuel Hfuel.
    unfold log. rewrite getCurrentHead_spec. unfold head_value. rewrite Hh'.
    by apply log_loop_chain.
  - by apply chain_ok_stored.
  - by apply (chain_ok_linked (run cmds w0)).
  - intros k r Hlast.
    assert (Hl : linked recs) by by apply (chain_ok_linked (run cmds w0)).
    rewrite (linked_last recs k r Hl Hlast). by split.
Qed.

Lemma is_plain_entries (es : list (string * string)) :
  is_plain (VArr (map (fun e => entry e.1 e.2) es)) = true.
Proof. induction es as [|e es IH]; [done|]. cbn in *. by rewrite IH. Qed.

(** Every file of a commit whose [parent] is falsy is reported as
    "First commit". *)
Lemma forEach_show_file_no_parent ts m fs parent (es : list (string * string)) w :
  truthy parent = false ->
  Forall (fun e => is_Some (files w !! objPath e.2)) es ->
  forEach (show_file (commit_record ts m fs parent))
    (map (fun e => entry e.1 e.2) es) w
  = (Ok tt,
     says (flat_map (fun e => [Log ("File: " +:+ e.1); Log (blob w e.2);
                               Log "First commit"]) es) w).
Proof.
  intros Hpar Hes. revert w Hes.
  induction es as [|[p h] es IH]; intros w Hes; cbn [map flat_map forEach].
  - by rewrite says_nil.
  - inversion Hes as [|? ? [c Hc] Hes']; subst. cbn [fst snd] in *.
    unfold mbind, M_bind.
    rewrite (bind_ok _ _ _ _ _ (show_file_no_parent w ts m fs parent p h c Hpar Hc)).
    rewrite IH by exact Hes'. rewrite says_says.
    unfold blob. cbn [files says]. by rewrite Hc.
Qed.

(** C9: [commit] on a repository whose [HEAD] exists and is empty
    stores a record whose [parent] is the empty string, not [null];
    [log] prints that commit and ends there, and [showCommitDiff]
    reports every file of it as "First commit"; both treat the
    empty-string parent as they treat [null]. *)
Theorem empty_head_parent (w : world) (m ts : string)
        (es : list (string * string)) :
  JSON_roundtrip -> digest_nonempty ->
  head_is w "" ->
  index_is w (map (fun e => entry e.1 e.2) es) ->
  Forall (fun e => is_Some (files w !! objPath e.2)) es ->
  exists w' k r,
    commit m ts w = (Ok tt, w')
    /\ head_is w' k
    /\ stored_record w' k r
    /\ get r "parent" = VStr ""
    /\ get r "parent" <> VNull
    /\ (forall fuel,
        log (S fuel) w'
        = Some (Ok tt, says [Log log_separator; Log (log_entry k ts m)] w'))
    /\ (forall fuel w1,
        log_loop fuel (get r "parent") w1 = log_loop fuel VNull w1)
    /\ showCommitDiff k w'
       = (Ok tt,
          says (Log "Changes in the last commit are: "
                :: flat_map (fun e => [Log ("File: " +:+ e.1);
                                       Log (blob w' e.2);
                                       Log "First commit"]) es) w')
    /\ (forall file w1,
        show_file r file w1
        = show_file (commit_record ts m (get r "files") VNull) file w1).
Proof.
  intros RT NE Hh Hi Hes.
  pose proof (is_plain_entries es) as Hplain.
  destruct (commit_effect w m ts _ RT Hi Hplain)
    as (w' & Hcm & Hi' & Hh' & Hsr & Hs & Hrest).
  assert (Hv : head_value w = VStr "").
  { unfold head_value. by rewrite Hh. }
  rewrite Hv in *.
  set (r := commit_record ts m (VArr (map (fun e => entry e.1 e.2) es)) (VStr ""))
    in *.
  set (k := hashObject (JSON_stringify r)) in *.
  assert (Hp : JSON_parse (JSON_stringify r) = Some r).
  { by apply RT, is_plain_commit_record. }
  exists w', k, r. repeat split; try done.
  - intros fuel.
    unfold log. rewrite getCurrentHead_spec. unfold head_value. rewrite Hh'.
    cbn [log_loop]. rewrite truthy_str by apply NE.
    rewrite (log_turn_parsed w' k _ ts m _ _ Hs Hp). by destruct fuel.
  - intros fuel w1. by destruct fuel.
  - rewrite (showCommitDiff_stored w' k _ ts m _ _ Hs Hp).
    rewrite forEach_show_file_no_parent; [by rewrite say_says, says_says|done|].
    eapply Forall_impl; [exact Hes|]. intros [p h] Hsome. cbn in *.
    destruct (decide (objPath h = objPath k)) as [->|Hne].
    + by rewrite Hs.
    + rewrite Hrest; [done| | |done]; path_ne.
Qed.

(** C4: [add] of the same path twice and then [commit] store a record
    with two entries for that path, one for each call; and for a file
    of a commit, [showCommitDiff] takes as its counterpart the first
    entry of the parent's file list with the same path, whatever
    entries follow it. *)
Theorem duplicate_path_entries (w : world) (f m ts c1 : string)
        (idx : list value) :
  JSON_roundtrip ->
  files w !! f = Some c1 ->
  index_is w idx ->
  is_plain (VArr idx) = true ->
  (exists w1 c2 w2 w3 k r,
      add f w = (Ok tt, w1)
      /\ files w1 !! f = Some c2
      /\ add f w1 = (Ok tt, w2)
      /\ commit m ts w2 = (Ok tt, w3)
      /\ head_is w3 k
      /\ stored_record w3 k r
      /\ get r "files"
         = VArr (idx ++ [entry f (hashObject c1); entry f (hashObject c2)]))
  /\ (forall w' ts' m' fs ph ptext pts pm pparent
             (pre : list (string * string)) p hb post h before after,
        ph <> "" ->
        files w' !! objPath ph = Some ptext ->
        JSON_parse ptext
        = Some (commit_record pts pm
                  (VArr (map (fun e => entry e.1 e.2) pre ++ entry p hb :: post))
                  pparent) ->
        Forall (fun e => e.1 <> p) pre ->
        files w' !! objPath hb = Some before ->
        files w' !! objPath h = Some after ->
        getParentFileContent
          (commit_record pts pm
             (VArr (map (fun e => entry e.1 e.2) pre ++ entry p hb :: post))
             pparent) (VStr p) w'
        = (Ok (Some before), w')
        /\ show_file (commit_record ts' m' fs (VStr ph)) (entry p h) w'
           = (Ok tt,
              says ([Log ("File: " +:+ p); Log after; Log (String "010" "Diff:")]
                    ++ map part_out (diffLines before after) ++ [Log ""]) w')).
Proof.
  intros RT Hf Hi Hplain. split.
  - destruct (add_effect w f c1 idx RT Hf Hi Hplain)
      as (w1 & Ha1 & Hi1 & Hs1 & Hrest1).
    assert (Hf1 : exists c2, files w1 !! f = Some c2).
    { destruct (decide (f = indexPath)) as [->|Hn1].
      - destruct Hi1 as (t & Ht & _). by exists t.
      - destruct (decide (f = objPath (hashObject c1))) as [->|Hn2].
        + by exists c1.
        + exists c1. by rewrite Hrest1. }
    destruct Hf1 as [c2 Hf1].
    assert (Hplain1 : is_plain (VArr (idx ++ [entry f (hashObject c1)])) = true).
    { rewrite is_plain_app, Hplain. reflexivity. }
    destruct (add_effect w1 f c2 _ RT Hf1 Hi1 Hplain1)
      as (w2 & Ha2 & Hi2 & _ & _).
    rewrite <- app_assoc in Hi2. cbn [app] in Hi2.
    assert (Hplain2 : is_plain (VArr (idx ++ [entry f (hashObject c1);
                                              entry f (hashObject c2)])) = true).
    { rewrite is_plain_app, Hplain. reflexivity. }
    destruct (commit_effect w2 m ts _ RT Hi2 Hplain2)
      as (w3 & Hc & _ & Hh3 & Hs3 & _ & _).
    exists w1, c2, w2, w3. eexists _, _. repeat split; try eassumption.
    reflexivity.
  - intros w' ts' m' fs ph ptext pts pm pparent pre p hb post h before after
      Hph Hpt Hpp Hpre Hb Ha. split.
    + by apply getParentFileContent_first_match.
    + by eapply show_file_diff.
Qed.

(** C5, as the code has it: when the walk of [log] reaches a commit
    that names a non-empty parent hash that has no object, [log] prints
    that commit and throws the error of the failed read; when the
    parent of the commit is [null] or the empty string, the walk ends
    there normally; when a file entry of a commit names a blob that has
    no object, [showCommitDiff] throws, and the error is that of the
    failed read when the entry is the first. *)
Theorem dangling_references (w : world) (k text ts m : string)
        (fs parent : value) :
  files w !! objPath k = Some text ->
  JSON_parse text = Some (commit_record ts m fs parent) ->
  k <> "" ->
  (forall ph fuel,
      parent = VStr ph -> ph <> "" -> files w !! objPath ph = None ->
      log_loop (S (S fuel)) (VStr k) w
      = Some (Throw (ENOENT (objPath ph)),
              says [Log log_separator; Log (log_entry k ts m)] w))
  /\ (forall fuel,
       parent = VNull \/ parent = VStr "" ->
       log_loop (S fuel) (VStr k) w
       = Some (Ok tt, says [Log log_separator; Log (log_entry k ts m)] w))
  /\ (head_is w k -> forall fuel, log fuel w = log_loop fuel (VStr k) w)
  /\ (forall pre p h post,
        fs = VArr (pre ++ entry p h :: post) ->
        files w !! objPath h = None ->
        (exists e w', showCommitDiff k w = (Throw e, w'))
        /\ (pre = [] ->
            showCommitDiff k w
            = (Throw (ENOENT (objPath h)),
               says [Log "Changes in the last commit are: ";
                     Log ("File: " +:+ p)] w))).
Proof.
  intros Hs Hp Hk. split_and!.
  - intros ph fuel -> Hph Hnone.
    cbn [log_loop]. rewrite (truthy_str k Hk).
    rewrite (log_turn_parsed w k text ts m fs _ Hs Hp).
    rewrite (truthy_str ph Hph). by rewrite log_turn_missing.
  - intros fuel Hpar.
    cbn [log_loop]. rewrite (truthy_str k Hk).
    rewrite (log_turn_parsed w k text ts m fs _ Hs Hp).
    by destruct Hpar as [-> | ->], fuel.
  - intros Hh fuel.
    unfold log. rewrite getCurrentHead_spec. unfold head_value. by rewrite Hh.
  - intros pre p h post -> Hnone.
    rewrite (showCommitDiff_stored w k text ts m _ parent Hs Hp). split.
    + set (cd := commit_record ts m (VArr (pre ++ entry p h :: post)) parent).
      set (w0 := say (Log "Changes in the last commit are: ") w).
      pose proof (read_only_forEach (show_file cd) pre
                    (read_only_show_file cd) w0) as Hro.
      destruct (forEach (show_file cd) pre w0) as [[[]|e] w1] eqn:Hpre.
      * rewrite (forEach_app _ _ _ _ _ Hpre). cbn [forEach].
        unfold mbind, M_bind. cbn [snd] in Hro.
        assert (Hnone1 : files w1 !! objPath h = None) by by rewrite Hro.
        rewrite (bind_throw _ _ _ _ _ (show_file_missing_blob w1 cd p h Hnone1)).
        eauto.
      * exists e, w1. by apply forEach_app_throw.
    + intros ->. cbn [app forEach]. unfold mbind, M_bind.
      rewrite (bind_throw _ _ _ _ _
                 (show_file_missing_blob (say _ w) _ p h Hnone)).
      by rewrite !say_says, says_says.
Qed.

(** C10: when [add] is called on a path that cannot be read, the error
    of the read is thrown before anything is written: the file system
    (object store and index included) and the output are unchanged. *)
Theorem add_unreadable_changes_nothing (w : world) (f : string) :
  files w !! f = None ->
  add f w = (Throw (ENOENT f), w)
  /\ files (add f w).2 = files w.
Proof.
  intros Hf. rewrite (add_throws_on_missing_file w f Hf). by split.
Qed.

End Properties.

(** ** Further properties of the methods *)

Section Further.
Context `{Runtime}.

(** *** [init] on a repository that is there in part *)

(** X1: when [HEAD] is missing and [index] exists, [init] creates an
    empty [HEAD], fails on the index, reports "Already initialised" and
    returns; the index keeps its content. *)
Theorem init_creates_missing_head (w : world) (i : string) :
  files w !! headPath = None ->
  files w !! indexPath = Some i ->
  init w
  = (Ok tt, say (Log "Already initialised the .duck folder") (set_file headPath "" w))
  /\ files (init w).2 !! indexPath = Some i
  /\ files (init w).2 !! headPath = Some "".
Proof.
  intros Hh Hi.
  assert (E : init w = (Ok tt, say (Log "Already initialised the .duck folder")
                                (set_file headPath "" w))).
  { unfold init. unfold_m. rewrite Hh.
    rewrite files_set_file, lookup_insert_ne by path_ne. by rewrite Hi. }
  rewrite E. split_and!; [done| |]; cbn.
  - by rewrite lookup_insert_ne by path_ne.
  - by rewrite lookup_insert_eq.
Qed.

Lemma commit_missing_index w m ts :
  files w !! indexPath = None ->
  commit m ts w = (Throw (ENOENT indexPath), w).
Proof.
  intros Hi. unfold commit, mbind, M_bind.
  by rewrite (bind_throw _ _ _ _ _ (readFile_none _ _ Hi)).
Qed.

Lemma JSON_parse_value_none text w :
  JSON_parse text = None ->
  JSON_parse_value (VStr text) w = (Throw SyntaxError, w).
Proof. intros Hp. unfold JSON_parse_value. unfold_m. simpl. by rewrite Hp. Qed.

Lemma commit_bad_index w m ts text :
  files w !! indexPath = Some text ->
  JSON_parse text = None ->
  commit m ts w = (Throw SyntaxError, w).
Proof.
  intros Hi Hp. unfold commit, mbind, M_bind.
  rewrite (bind_ok _ _ _ _ _ (readFile_some _ _ _ Hi)).
  by rewrite (bind_throw _ _ _ _ _ (JSON_parse_value_none _ _ Hp)).
Qed.

(** X2: when [HEAD] exists and [index] is missing, [init] writes
    nothing, so the index stays missing: [commit] and every [add] still
    throw after it. *)
Theorem init_leaves_index_missing (w : world) (h : string) :
  files w !! headPath = Some h ->
  files w !! indexPath = None ->
  init w = (Ok tt, say (Log "Already initialised the .duck folder") w)
  /\ files (init w).2 !! indexPath = None
  /\ (forall m ts,
        commit m ts (init w).2 = (Throw (ENOENT indexPath), (init w).2))
  /\ (forall f, exists e w', add f (init w).2 = (Throw e, w')).
Proof.
  intros Hh Hi. rewrite (init_again w h Hh). cbn [snd]. split_and!.
  - done.
  - done.
  - intros m ts. by apply commit_missing_index.
  - intros f. unfold add, mbind, M_bind.
    set (w0 := say _ w).
    destruct (files w0 !! f) as [c|] eqn:Hf.
    + rewrite (bind_ok _ _ _ _ _ (readFile_some _ _ _ Hf)).
      rewrite bind_console_log. unfold bind at 1, writeFile at 1.
      unfold bind at 1, updateStagingArea, mbind, M_bind.
      erewrite (bind_throw (readFile indexPath)); [eauto|].
      apply readFile_none. cbn. by rewrite lookup_insert_ne by path_ne.
    + rewrite (bind_throw _ _ _ _ _ (readFile_none _ _ Hf)). eauto.
Qed.

(** *** [add] step by step *)

Lemma add_readable w f c :
  files w !! f = Some c ->
  add f w
  = match updateStagingArea f (hashObject c) (blob_written c w) with
    | (Ok _, w') => (Ok tt, say (Log ("Added " +:+ f)) w')
    | (Throw e, w') => (Throw e, w')
    end.
Proof.
  intros Hf. unfold add, mbind, M_bind.
  rewrite (bind_ok _ _ _ _ _ (readFile_some _ _ _ Hf)).
  rewrite bind_console_log. unfold bind at 1, writeFile at 1.
  unfold bind at 1, blob_written.
  by destruct (updateStagingArea _ _ _) as [[[]|e] w'].
Qed.

Lemma blob_written_index c w :
  files (blob_written c w) !! indexPath = files w !! indexPath.
Proof. unfold blob_written. cbn. by rewrite lookup_insert_ne by path_ne. Qed.

(** X3: [add] is not atomic.  When the file can be read but the index
    is missing, is not JSON, or is JSON but not an array, [add] throws
    (the error of the read, a SyntaxError, a TypeError) after it has
    printed the hash and written the blob: the blob stays in the store
    and the index is as it was. *)
Theorem add_fails_after_blob (w : world) (f c : string) :
  files w !! f = Some c ->
  (files w !! indexPath = None ->
   add f w = (Throw (ENOENT indexPath), blob_written c w))
  /\ (forall text,
        files w !! indexPath = Some text -> JSON_parse text = None ->
        add f w = (Throw SyntaxError, blob_written c w))
  /\ (forall text v,
        files w !! indexPath = Some text -> JSON_parse text = Some v ->
        (forall l, v <> VArr l) ->
        add f w = (Throw TypeError, blob_written c w))
  /\ files (blob_written c w) !! objPath (hashObject c) = Some c
  /\ files (blob_written c w) !! indexPath = files w !! indexPath.
Proof.
  intros Hf. rewrite (add_readable w f c Hf). split_and!.
  - intros Hi. unfold updateStagingArea, mbind, M_bind.
    rewrite (bind_throw _ _ _ _ _ (readFile_none indexPath (blob_written c w)
               ltac:(by rewrite blob_written_index))).
    done.
  - intros text Hi Hp. unfold updateStagingArea, mbind, M_bind.
    rewrite (bind_ok _ _ _ _ _ (readFile_some indexPath (blob_written c w) text
               ltac:(by rewrite blob_written_index))).
    by rewrite (bind_throw _ _ _ _ _ (JSON_parse_value_none _ _ Hp)).
  - intros text v Hi Hp Hv. unfold updateStagingArea, mbind, M_bind.
    rewrite (bind_ok _ _ _ _ _ (readFile_some indexPath (blob_written c w) text
               ltac:(by rewrite blob_written_index))).
    rewrite (bind_ok _ _ _ _ _ (JSON_parse_value_text _ _ _ Hp)).
    destruct v; try done. by destruct (Hv elems).
  - unfold blob_written. cbn. by rewrite lookup_insert_eq.
  - apply blob_written_index.
Qed.

(** X4: whatever [add] does, it changes no file but the index and
    objects; [HEAD] in particular is as it was. *)
Theorem add_changes_only_index_and_objects (w : world) (f : string) :
  files (add f w).2 !! headPath = files w !! headPath
  /\ (forall q,
        q <> indexPath -> (forall k, q <> objPath k) ->
        files (add f w).2 !! q = files w !! q).
Proof.
  assert (Hq : forall q, q <> indexPath -> (forall k, q <> objPath k) ->
                         files (add f w).2 !! q = files w !! q).
  { intros q Hq1 Hq2.
    destruct (files w !! f) as [c|] eqn:Hf.
    - rewrite (add_readable w f c Hf).
      pose proof (updateStagingArea_frame (blob_written c w) f (hashObject c)
                    q Hq1) as Hfr.
      destruct (updateStagingArea _ _ _) as [[[]|e] w']; cbn [snd] in *;
        cbn [files say]; rewrite Hfr; unfold blob_written; cbn;
        by rewrite lookup_insert_ne by apply not_eq_sym, Hq2.
    - by rewrite (add_throws_on_missing_file w f Hf). }
  split; [|exact Hq].
  apply Hq; [path_ne|]. intros k. path_ne.
Qed.

(** *** [commit] *)

(** X5: [commit] does all of its writes or none.  It throws only when
    the index is missing or is not JSON, and then the world is
    unchanged; for every index that is JSON, array or not, it returns,
    stores the record with the parsed index as [files] under its hash,
    sets [HEAD] to that hash and rewrites the index as the empty
    array. *)
Theorem commit_all_or_nothing (w : world) (m ts : string) :
  (files w !! indexPath = None ->
   commit m ts w = (Throw (ENOENT indexPath), w))
  /\ (forall text,
        files w !! indexPath = Some text -> JSON_parse text = None ->
        commit m ts w = (Throw SyntaxError, w))
  /\ (forall text v,
        files w !! indexPath = Some text -> JSON_parse text = Some v ->
        let record := JSON_stringify (commit_record ts m v (head_value w)) in
        exists w',
          commit m ts w = (Ok tt, w')
          /\ files w' !! objPath (hashObject record) = Some record
          /\ files w' !! headPath = Some (hashObject record)
          /\ files w' !! indexPath = Some (JSON_stringify (VArr []))
          /\ (forall q, q <> indexPath -> q <> headPath ->
              q <> objPath (hashObject record) ->
              files w' !! q = files w !! q)).
Proof.
  split_and!.
  - apply commit_missing_index.
  - apply commit_bad_index.
  - intros text v Hi Hp record. eexists.
    split; [by apply (commit_spec w m ts text v)|]. fold record. split_and!.
    + cbn. rewrite !lookup_insert_ne by path_ne. by rewrite lookup_insert_eq.
    + cbn. rewrite lookup_insert_ne by path_ne. by rewrite lookup_insert_eq.
    + cbn. by rewrite lookup_insert_eq.
    + intros q Hq1 Hq2 Hq3. cbn. by rewrite !lookup_insert_ne by path_ne.
Qed.

(** X6: [commit] on a repository whose [HEAD] file is missing takes the
    [catch] branch of [getCurrentHead]: the record is stored with the
    parent [null], [HEAD] is created, and [log] then prints that one
    commit and ends. *)
Theorem commit_without_head_file (w : world) (m ts : string)
        (idx : list value) :
  JSON_roundtrip -> digest_nonempty ->
  files w !! headPath = None ->
  index_is w idx ->
  is_plain (VArr idx) = true ->
  exists w' k r,
    commit m ts w = (Ok tt, w')
    /\ head_is w' k
    /\ stored_record w' k r
    /\ r = commit_record ts m (VArr idx) VNull
    /\ (forall fuel,
        log (S fuel) w'
        = Some (Ok tt, says [Log log_separator; Log (log_entry k ts m)] w')).
Proof.
  intros RT NE Hh Hi Hplain.
  destruct (commit_effect w m ts _ RT Hi Hplain)
    as (w' & Hcm & _ & Hh' & Hsr & Hs & _).
  assert (Hv : head_value w = VNull) by (unfold head_value; by rewrite Hh).
  rewrite Hv in *.
  set (r := commit_record ts m (VArr idx) VNull) in *.
  assert (Hp : JSON_parse (JSON_stringify r) = Some r).
  { by apply RT, is_plain_commit_record. }
  exists w', (hashObject (JSON_stringify r)), r. split_and!; try done.
  intros fuel.
  unfold log. rewrite getCurrentHead_spec. unfold head_value. rewrite Hh'.
  cbn [log_loop]. rewrite truthy_str by apply NE.
  rewrite (log_turn_parsed w' _ _ ts m _ _ Hs Hp). by destruct fuel.
Qed.

(** X7: a [commit] empties the index, so of two commits in a row the
    second has no files; its parent is the hash of the first. *)
Theorem commit_twice (w : world) (m1 ts1 m2 ts2 : string) (idx : list value) :
  JSON_roundtrip ->
  index_is w idx ->
  is_plain (VArr idx) = true ->
  exists w1 w2 r1 r2,
    commit m1 ts1 w = (Ok tt, w1)
    /\ commit m2 ts2 w1 = (Ok tt, w2)
    /\ r1 = commit_record ts1 m1 (VArr idx) (head_value w)
    /\ r2 = commit_record ts2 m2 (VArr [])
              (VStr (hashObject (JSON_stringify r1)))
    /\ stored_record w2 (hashObject (JSON_stringify r2)) r2
    /\ head_is w2 (hashObject (JSON_stringify r2))
    /\ index_is w2 [].
Proof.
  intros RT Hi Hplain.
  destruct (commit_effect w m1 ts1 _ RT Hi Hplain)
    as (w1 & Hc1 & Hi1 & Hh1 & _ & _ & _).
  destruct (commit_effect w1 m2 ts2 _ RT Hi1 eq_refl)
    as (w2 & Hc2 & Hi2 & Hh2 & Hsr2 & _ & _).
  assert (Hv : head_value w1
               = VStr (hashObject (JSON_stringify
                         (commit_record ts1 m1 (VArr idx) (head_value w))))).
  { unfold head_value at 1. by rewrite Hh1. }
  rewrite Hv in *.
  eexists w1, w2, _, _. split_and!; try done.
Qed.

(** *** What the methods never do *)

Lemma read_only_iterate v : read_only (iterate v).
Proof. destruct v; first [apply read_only_ret | apply read_only_throw]. Qed.

Lemma read_only_showCommitDiff h : read_only (showCommitDiff h).
Proof.
  apply read_only_bind; [apply read_only_getCommitData|]. intros text.
  apply read_only_bind; [apply read_only_JSON_parse_value|]. intros cd.
  destruct (negb (truthy cd)); [apply read_only_emit|].
  apply read_only_bind; [apply read_only_emit|]. intros _.
  apply read_only_bind; [apply read_only_member|]. intros fs.
  apply read_only_bind; [apply read_only_iterate|]. intros l.
  apply read_only_forEach. apply read_only_show_file.
Qed.

Lemma read_only_log_turn v : read_only (log_turn v).
Proof.
  apply read_only_bind; [apply read_only_path_join_value|]. intros p.
  apply read_only_bind; [apply read_only_readFile|]. intros text.
  apply read_only_bind; [apply read_only_JSON_parse_value|]. intros cd.
  apply read_only_bind; [apply read_only_emit|]. intros _.
  apply read_only_bind; [apply read_only_to_text|]. intros hash.
  apply read_only_bind; [apply read_only_member|]. intros ts.
  apply read_only_bind; [apply read_only_to_text|]. intros timeStamp.
  apply read_only_bind; [apply read_only_member|]. intros msg.
  apply read_only_bind; [apply read_only_to_text|]. intros message.
  apply read_only_bind; [apply read_only_emit|]. intros _.
  apply read_only_member.
Qed.

Lemma log_loop_files fuel v w r w' :
  log_loop fuel v w = Some (r, w') -> files w' = files w.
Proof.
  revert v w. induction fuel as [|fuel IH]; intros v w; cbn [log_loop].
  - destruct (truthy v); [done|]. by intros [= <- <-].
  - destruct (truthy v); [|by intros [= <- <-]].
    pose proof (read_only_log_turn v w) as Hro.
    destruct (log_turn v w) as [[parent|e] w1]; cbn [snd] in Hro.
    + intros Hl. rewrite (IH _ _ Hl). exact Hro.
    + by intros [= <- <-].
Qed.

(** X8: [log] and [showCommitDiff] only read and print: whatever the
    store holds and however they end, they write no file. *)
Theorem log_and_show_write_no_file :
  (forall fuel w r w', log fuel w = Some (r, w') -> files w' = files w)
  /\ (forall h w, files (showCommitDiff h w).2 = files w).
Proof.
  split.
  - intros fuel w r w'. unfold log. rewrite getCurrentHead_spec.
    apply log_loop_files.
  - intros h w. apply read_only_showCommitDiff.
Qed.

Lemma keeps_files_read_only {A} (m : M A) : read_only m -> keeps_files m.
Proof. intros Hm w p Hp. by rewrite Hm. Qed.

Lemma keeps_files_bind {A B} (m : M A) (k : A -> M B) :
  keeps_files m -> (forall a, keeps_files (k a)) -> keeps_files (bind m k).
Proof.
  intros Hm Hk w p Hp. unfold bind. specialize (Hm w p Hp).
  destruct (m w) as [[a|e] w1]; cbn [snd] in *; [|done]. by apply Hk.
Qed.

Lemma keeps_files_try_catch {A} (m : M A) (h : error -> M A) :
  keeps_files m -> (forall e, keeps_files (h e)) -> keeps_files (try_catch m h).
Proof.
  intros Hm Hh w p Hp. unfold try_catch. specialize (Hm w p Hp).
  destruct (m w) as [[a|e] w1]; cbn [snd] in *; [done|]. by apply Hh.
Qed.

Lemma keeps_files_writeFile p c : keeps_files (writeFile p c).
Proof.
  intros w q Hq. cbn. destruct (decide (p = q)) as [->|Hne].
  - rewrite lookup_insert_eq. eauto.
  - by rewrite lookup_insert_ne.
Qed.

Lemma keeps_files_writeFile_wx p c : keeps_files (writeFile_wx p c).
Proof.
  intros w q Hq. unfold writeFile_wx.
  destruct (files w !! p); [done|]. by apply (keeps_files_writeFile p c).
Qed.

Lemma keeps_files_updateStagingArea p h : keeps_files (updateStagingArea p h).
Proof.
  apply keeps_files_bind; [apply keeps_files_read_only, read_only_readFile|].
  intros text.
  apply keeps_files_bind;
    [apply keeps_files_read_only, read_only_JSON_parse_value|].
  intros index. apply keeps_files_bind.
  { apply keeps_files_read_only.
    destruct index; first [apply read_only_ret | apply read_only_throw]. }
  intros index'. apply keeps_files_writeFile.
Qed.

(** X9: no method removes a file: every file that exists before
    [init], [add] or [commit] exists after it, however the call ends. *)
Theorem no_method_removes_a_file :
  keeps_files init
  /\ (forall f, keeps_files (add f))
  /\ (forall m ts, keeps_files (commit m ts)).
Proof.
  split_and!.
  - apply keeps_files_bind; [apply keeps_files_read_only, read_only_ret|].
    intros _. apply keeps_files_try_catch.
    + apply keeps_files_bind; [apply keeps_files_writeFile_wx|].
      intros _. apply keeps_files_writeFile_wx.
    + intros e. apply keeps_files_read_only, read_only_emit.
  - intros f.
    apply keeps_files_bind; [apply keeps_files_read_only, read_only_readFile|].
    intros c.
    apply keeps_files_bind; [apply keeps_files_read_only, read_only_emit|].
    intros _. apply keeps_files_bind; [apply keeps_files_writeFile|].
    intros _. apply keeps_files_bind; [apply keeps_files_updateStagingArea|].
    intros _. apply keeps_files_read_only, read_only_emit.
  - intros m ts.
    apply keeps_files_bind; [apply keeps_files_read_only, read_only_readFile|].
    intros text.
    apply keeps_files_bind;
      [apply keeps_files_read_only, read_only_JSON_parse_value|].
    intros index. apply keeps_files_bind.
    { apply keeps_files_read_only. intros w. by rewrite getCurrentHead_spec. }
    intros parent. apply keeps_files_bind; [apply keeps_files_writeFile|].
    intros _. apply keeps_files_bind; [apply keeps_files_writeFile|].
    intros _. apply keeps_files_bind; [apply keeps_files_writeFile|].
    intros _. apply keeps_files_read_only, read_only_emit.
Qed.

(** *** [log] at its edges *)

(** X10: on a repository without commits, whether [HEAD] is empty or
    missing, [log] prints nothing and returns at once, with any fuel. *)
Theorem log_without_commits (w : world) (fuel : nat) :
  files w !! headPath = None \/ files w !! headPath = Some "" ->
  log fuel w = Some (Ok tt, w).
Proof.
  intros Hh. unfold log. rewrite getCurrentHead_spec. unfold head_value.
  destruct Hh as [-> | ->]; by destruct fuel.
Qed.

Lemma log_turn_not_json w k text :
  files w !! objPath k = Some text ->
  JSON_parse text = None ->
  log_turn (VStr k) w = (Throw SyntaxError, w).
Proof.
  intros Hs Hp. unfold log_turn, mbind, M_bind. repeat mstep.
  fold (objPath k). rewrite (bind_ok _ _ _ _ _ (readFile_some _ _ _ Hs)).
  by rewrite (bind_throw _ _ _ _ _ (JSON_parse_value_none _ _ Hp)).
Qed.

Lemma log_turn_null w k text :
  files w !! objPath k = Some text ->
  JSON_parse text = Some VNull ->
  log_turn (VStr k) w = (Throw TypeError, say (Log log_separator) w).
Proof.
  intros Hs Hp. unfold log_turn, mbind, M_bind. repeat mstep.
  fold (objPath k). rewrite (bind_ok _ _ _ _ _ (readFile_some _ _ _ Hs)).
  rewrite (bind_ok _ _ _ _ _ (JSON_parse_value_text _ _ _ Hp)).
  by repeat mstep.
Qed.

(** X11: when [HEAD] names something that is not a commit, [log]
    throws: the error of the read, with nothing printed, when no object
    has that name; a SyntaxError, with nothing printed, when the object
    is not JSON; a TypeError, after the separator line, when the object
    is the JSON [null]. *)
Theorem log_with_bad_head (w : world) (k : string) (fuel : nat) :
  head_is w k ->
  k <> "" ->
  (files w !! objPath k = None ->
   log (S fuel) w = Some (Throw (ENOENT (objPath k)), w))
  /\ (forall text,
        files w !! objPath k = Some text -> JSON_parse text = None ->
        log (S fuel) w = Some (Throw SyntaxError, w))
  /\ (forall text,
        files w !! objPath k = Some text -> JSON_parse text = Some VNull ->
        log (S fuel) w = Some (Throw TypeError, say (Log log_separator) w)).
Proof.
  intros Hh Hk.
  assert (E : log (S fuel) w
              = match log_turn (VStr k) w with
                | (Ok parent, w') => log_loop fuel parent w'
                | (Throw e, w') => Some (Throw e, w')
                end).
  { unfold log. rewrite getCurrentHead_spec. unfold head_value. rewrite Hh.
    cbn [log_loop]. by rewrite (truthy_str k Hk). }
  rewrite E. split_and!.
  - intros Hs. by rewrite (log_turn_missing w k Hs).
  - intros text Hs Hp. by rewrite (log_turn_not_json w k text Hs Hp).
  - intros text Hs Hp. by rewrite (log_turn_null w k text Hs Hp).
Qed.

Lemma log_loop_on_cycle (P : string -> Prop) (w : world) :
  (forall k, P k ->
     k <> ""
     /\ exists text ts m fs k',
         files w !! objPath k = Some text
         /\ JSON_parse text = Some (commit_record ts m fs (VStr k'))
         /\ P k') ->
  forall fuel k w',
    P k -> files w' = files w -> log_loop fuel (VStr k) w' = None.
Proof.
  intros Hcyc. induction fuel as [|fuel IH]; intros k w' Hk Hfiles;
    destruct (Hcyc k Hk) as (Hne & text & ts & m & fs & k' & Hs & Hp & Hk');
    cbn [log_loop]; rewrite (truthy_str k Hne); [done|].
  rewrite <- Hfiles in Hs.
  rewrite (log_turn_parsed w' k text ts m fs _ Hs Hp).
  by apply IH.
Qed.

(** X12: [log] has no guard against a cycle.  When every commit of a
    set names a parent in the set (each is stored, and none has a
    falsy parent), the walk from any of them never ends: [log] runs
    out of every fuel. *)
Theorem log_never_ends_on_a_cycle (P : string -> Prop) (w : world)
        (k : string) :
  (forall k, P k ->
     k <> ""
     /\ exists text ts m fs k',
         files w !! objPath k = Some text
         /\ JSON_parse text = Some (commit_record ts m fs (VStr k'))
         /\ P k') ->
  head_is w k ->
  P k ->
  forall fuel, log fuel w = None.
Proof.
  intros Hcyc Hh Hk fuel.
  unfold log. rewrite getCurrentHead_spec. unfold head_value. rewrite Hh.
  by apply (log_loop_on_cycle P w Hcyc).
Qed.

(** *** [showCommitDiff] file by file *)

Lemma find_path_entries p (es : list (string * string)) w :
  find_path (VStr p) (map (fun e => entry e.1 e.2) es) w
  = (Ok (match first_with_path p es with
         | Some e => entry e.1 e.2
         | None => VUndefined
         end), w).
Proof.
  induction es as [|[p' h'] es IH]; [done|].
  cbn [map find_path first_with_path fst snd]. unfold mbind, M_bind.
  rewrite member_entry_path, bind_ret. cbn [strict_eq].
  by destruct (String.eqb p' p).
Qed.

Lemma first_with_path_In p es e :
  first_with_path p es = Some e -> e ∈ es.
Proof.
  induction es as [|e' es IH]; [done|]. cbn [first_with_path].
  destruct (String.eqb e'.1 p); [intros [= ->]; by left|].
  intros He. right. by apply IH.
Qed.

Lemma getParentFileContent_entries w ts m parent
      (es : list (string * string)) p :
  blobs_stored w es ->
  getParentFileContent
    (commit_record ts m (VArr (map (fun e => entry e.1 e.2) es)) parent)
    (VStr p) w
  = (Ok (match first_with_path p es with
         | Some e => Some (blob w e.2)
         | None => None
         end), w).
Proof.
  intros Hes. unfold getParentFileContent, mbind, M_bind. repeat mstep.
  rewrite (bind_ok _ _ _ _ _ (find_path_entries p es w)).
  destruct (first_with_path p es) as [[p' h']|] eqn:Hf; [|done].
  cbn [entry truthy]. repeat mstep.
  apply first_with_path_In in Hf.
  unfold blobs_stored in Hes. rewrite Forall_forall in Hes.
  destruct (Hes _ Hf) as [c Hc]. cbn [snd] in Hc.
  rewrite (bind_ok _ _ _ _ _ (getFileContent_some _ _ _ Hc)).
  unfold blob. cbn [snd]. by rewrite Hc.
Qed.

Lemma getParentFileContent_absent w ts m parent
      (es : list (string * string)) p :
  first_with_path p es = None ->
  getParentFileContent
    (commit_record ts m (VArr (map (fun e => entry e.1 e.2) es)) parent)
    (VStr p) w
  = (Ok None, w).
Proof.
  intros Hf. unfold getParentFileContent, mbind, M_bind. repeat mstep.
  rewrite (bind_ok _ _ _ _ _ (find_path_entries p es w)).
  by rewrite Hf.
Qed.

(** A file of a commit whose parent is a stored commit of entries. *)
Lemma show_file_with_parent w ts m fs ph ptext pts pm pparent
      (pes : list (string * string)) p h c :
  ph <> "" ->
  files w !! objPath ph = Some ptext ->
  JSON_parse ptext
  = Some (commit_record pts pm (VArr (map (fun e => entry e.1 e.2) pes))
            pparent) ->
  blobs_stored w pes ->
  files w !! objPath h = Some c ->
  show_file (commit_record ts m fs (VStr ph)) (entry p h) w
  = (Ok tt, says (file_report w (Some pes) (p, h)) w).
Proof.
  intros Hph Hpt Hpp Hpes Hc. unfold show_file, mbind, M_bind. repeat mstep.
  rewrite (bind_ok _ _ _ _ _ (getFileContent_some (say _ w) h c Hc)).
  repeat mstep. rewrite (truthy_str ph Hph).
  rewrite (bind_ok _ _ _ _ _ (getCommitData_some (say _ (say _ w)) ph ptext Hpt)).
  rewrite (bind_ok _ _ _ _ _ (JSON_parse_value_text _ _ _ Hpp)).
  rewrite (bind_ok _ _ _ _ _
             (getParentFileContent_entries (say _ (say _ w)) _ _ _ pes p Hpes)).
  unfold file_report. cbn [fst snd].
  assert (Hb : blob w h = c) by (unfold blob; by rewrite Hc). rewrite Hb.
  destruct (first_with_path p pes) as [[p' h']|].
  - mstep. unfold bind at 1. rewrite forEach_write_part.
    unfold console_log, emit. by rewrite !say_says, !says_says.
  - unfold console_log, emit. by rewrite !say_says, !says_says.
Qed.

(** X13: a file of a commit whose path is not in the file list of the
    parent commit is reported as "New file in this commit", after its
    path and content. *)
Theorem show_new_file (w : world) (ts m : string) (fs : value)
        (ph ptext pts pm : string) (pparent : value)
        (pes : list (string * string)) (p h c : string) :
  ph <> "" ->
  files w !! objPath ph = Some ptext ->
  JSON_parse ptext
  = Some (commit_record pts pm (VArr (map (fun e => entry e.1 e.2) pes))
            pparent) ->
  Forall (fun e => e.1 <> p) pes ->
  files w !! objPath h = Some c ->
  show_file (commit_record ts m fs (VStr ph)) (entry p h) w
  = (Ok tt,
     says [Log ("File: " +:+ p); Log c; Log "New file in this commit"] w).
Proof.
  intros Hph Hpt Hpp Hpes Hc. unfold show_file, mbind, M_bind. repeat mstep.
  rewrite (bind_ok _ _ _ _ _ (getFileContent_some (say _ w) h c Hc)).
  repeat mstep. rewrite (truthy_str ph Hph).
  rewrite (bind_ok _ _ _ _ _ (getCommitData_some (say _ (say _ w)) ph ptext Hpt)).
  rewrite (bind_ok _ _ _ _ _ (JSON_parse_value_text _ _ _ Hpp)).
  assert (Hnone : first_with_path p pes = None).
  { clear Hpp. induction Hpes as [|e pes He _ IH]; [done|].
    cbn [first_with_path]. by destruct (String.eqb_spec e.1 p). }
  rewrite (bind_ok _ _ _ _ _
             (getParentFileContent_absent (say _ (say _ w)) _ _ _ pes p Hnone)).
  unfold console_log, emit. by rewrite !say_says, !says_says.
Qed.

(** X14: [showCommitDiff] on a commit with a file when the parent hash
    names no object: [getCommitData] catches and prints the failed
    read and returns [null], and the search in [null.files] ends the
    call in a TypeError, after the path and content of the first file. *)
Theorem show_with_missing_parent (w : world) (k text ts m : string)
        (p h c : string) (rest : list value) (ph : string) :
  JSON_parse_null ->
  files w !! objPath k = Some text ->
  JSON_parse text
  = Some (commit_record ts m (VArr (entry p h :: rest)) (VStr ph)) ->
  ph <> "" ->
  files w !! objPath ph = None ->
  files w !! objPath h = Some c ->
  showCommitDiff k w
  = (Throw TypeError,
     says [Log "Changes in the last commit are: "; Log ("File: " +:+ p);
           Log c;
           LogError "Failed to read the commit data" (ENOENT (objPath ph))] w).
Proof.
  intros Hnull Hs Hp Hph Hnone Hc.
  rewrite (showCommitDiff_stored w k text ts m _ _ Hs Hp).
  cbn [forEach]. unfold mbind, M_bind.
  erewrite bind_throw; [reflexivity|].
  unfold show_file, mbind, M_bind. repeat mstep.
  rewrite (bind_ok _ _ _ _ _ (getFileContent_some (say _ (say _ w)) h c Hc)).
  repeat mstep. rewrite (truthy_str ph Hph).
  rewrite (bind_ok _ _ _ _ _
             (getCommitData_none (say _ (say _ (say _ w))) ph Hnone)).
  assert (Hv : forall w', JSON_parse_value VNull w' = (Ok VNull, w')).
  { intros w'. unfold JSON_parse_value. unfold_m. simpl.
    unfold JSON_parse_null in Hnull. by rewrite Hnull. }
  rewrite (bind_ok _ _ _ _ _ (Hv _)).
  assert (Hg : forall w', getParentFileContent VNull (VStr p) w'
                          = (Throw TypeError, w')).
  { intros w'. unfold getParentFileContent. by unfold_m. }
  rewrite (bind_throw _ _ _ _ _ (Hg _)).
  by rewrite !say_says, !says_says.
Qed.

(** X15: [showCommitDiff] on an object that is stored but is not a
    commit: it throws a SyntaxError when the text is not JSON; it
    prints "Commit not found" when the text is a falsy JSON value;
    and it throws a TypeError after its heading when the value is
    truthy and its [files] is neither an array nor a string. *)
Theorem show_on_other_object (w : world) (k text : string) :
  files w !! objPath k = Some text ->
  (JSON_parse text = None ->
   showCommitDiff k w = (Throw SyntaxError, w))
  /\ (forall v,
        JSON_parse text = Some v -> truthy v = false ->
        showCommitDiff k w = (Ok tt, say (Log "Commit not found") w))
  /\ (forall v,
        JSON_parse text = Some v -> truthy v = true ->
        (forall l, get v "files" <> VArr l) ->
        (forall s, get v "files" <> VStr s) ->
        showCommitDiff k w
        = (Throw TypeError, say (Log "Changes in the last commit are: ") w)).
Proof.
  intros Hs. split_and!.
  - intros Hp. unfold showCommitDiff, mbind, M_bind.
    rewrite (bind_ok _ _ _ _ _ (getCommitData_some _ _ _ Hs)).
    by rewrite (bind_throw _ _ _ _ _ (JSON_parse_value_none _ _ Hp)).
  - intros v Hp Hv. unfold showCommitDiff, mbind, M_bind.
    rewrite (bind_ok _ _ _ _ _ (getCommitData_some _ _ _ Hs)).
    rewrite (bind_ok _ _ _ _ _ (JSON_parse_value_text _ _ _ Hp)).
    by rewrite Hv.
  - intros v Hp Hv Harr Hstr. unfold showCommitDiff, mbind, M_bind.
    rewrite (bind_ok _ _ _ _ _ (getCommitData_some _ _ _ Hs)).
    rewrite (bind_ok _ _ _ _ _ (JSON_parse_value_text _ _ _ Hp)).
    rewrite Hv. cbn [negb]. rewrite bind_console_log.
    assert (Hm : member v "files" = ret (get v "files")).
    { by destruct v. }
    rewrite Hm, bind_ret.
    destruct (get v "files") eqn:Hg; try done.
    + by destruct (Hstr s).
    + by destruct (Harr elems).
Qed.

Lemma forEach_show_file_with_parent ts m fs ph ptext pts pm pparent
      (pes es : list (string * string)) w :
  ph <> "" ->
  files w !! objPath ph = Some ptext ->
  JSON_parse ptext
  = Some (commit_record pts pm (VArr (map (fun e => entry e.1 e.2) pes))
            pparent) ->
  blobs_stored w pes ->
  blobs_stored w es ->
  forEach (show_file (commit_record ts m fs (VStr ph)))
    (map (fun e => entry e.1 e.2) es) w
  = (Ok tt, says (flat_map (file_report w (Some pes)) es) w).
Proof.
  intros Hph Hpt Hpp Hpes Hes. revert w Hpt Hpes Hes.
  induction es as [|[p h] es IH]; intros w Hpt Hpes Hes;
    cbn [map flat_map forEach].
  - by rewrite says_nil.
  - inversion Hes as [|? ? [c Hc] Hes']; subst. cbn [fst snd] in *.
    unfold mbind, M_bind.
    rewrite (bind_ok _ _ _ _ _
               (show_file_with_parent w ts m fs ph ptext pts pm pparent pes
                  p h c Hph Hpt Hpp Hpes Hc)).
    rewrite IH; [|exact Hpt|exact Hpes|exact Hes']. by rewrite says_says.
Qed.

(** *** The history of a session *)

Lemma blobs_stored_kept w w' es :
  objects_kept w w' -> blobs_stored w es -> blobs_stored w' es.
Proof.
  intros Hk Hes. unfold blobs_stored in *.
  eapply Forall_impl; [exact Hes|]. intros e [c Hc]. exists c. by apply Hk.
Qed.

Lemma history_ok_kept w w' hs :
  objects_kept w w' -> history_ok w hs -> history_ok w' hs.
Proof.
  intros Hk. induction hs as [|c older IH]; [done|].
  intros (Hs & Hh & Hb & Ho). split_and!.
  - by apply Hk.
  - exact Hh.
  - by apply (blobs_stored_kept w).
  - by apply IH.
Qed.

Lemma history_ok_suffix w newer rest :
  history_ok w (newer ++ rest) -> history_ok w rest.
Proof.
  induction newer as [|c newer IH]; [done|]. intros (_ & _ & _ & Ho).
  by apply IH.
Qed.

Lemma is_plain_record_of c older : is_plain (record_of c older) = true.
Proof.
  pose proof (is_plain_entries (c_files c)) as Hes.
  unfold record_of, commit_record. cbn in *. by rewrite Hes.
Qed.

(** [showCommitDiff] on a commit of a stored history. *)
Lemma show_history_commit w c older :
  JSON_roundtrip -> digest_nonempty ->
  history_ok w (c :: older) ->
  showCommitDiff (c_hash c) w = (Ok tt, says (show_output w c older) w).
Proof.
  intros RT NE (Hs & _ & Hb & Ho).
  assert (Hp : JSON_parse (JSON_stringify (record_of c older))
               = Some (record_of c older)).
  { apply RT. apply (is_plain_record_of c older). }
  unfold record_of in Hp.
  rewrite (showCommitDiff_stored w _ _ _ _ _ _ Hs Hp).
  unfold show_output. destruct older as [|c' older']; cbn [head_of parent_files].
  - rewrite (forEach_show_file_no_parent _ _ _ (VStr "") (c_files c)
               (say _ w) eq_refl Hb).
    by rewrite say_says, says_says.
  - destruct Ho as (Hs' & Hh' & Hb' & _).
    assert (Hp' : JSON_parse (JSON_stringify (record_of c' older'))
                  = Some (record_of c' older')).
    { apply RT. apply (is_plain_record_of c' older'). }
    unfold record_of in Hp'.
    assert (Hne : c_hash c' <> "").
    { rewrite Hh'. apply NE. }
    rewrite (forEach_show_file_with_parent _ _ _ _ _ _ _ _ (c_files c')
               (c_files c) (say _ w) Hne Hs' Hp' Hb' Hb).
    by rewrite say_says, says_says.
Qed.

Lemma contents_stored_kept w w' fs :
  objects_kept w w' -> contents_stored w fs -> contents_stored w' fs.
Proof.
  intros Hk Hfs. unfold contents_stored in *.
  eapply Forall_impl; [exact Hfs|]. intros pc Hpc. by apply Hk.
Qed.

Lemma contents_blobs_stored w fs :
  contents_stored w fs -> blobs_stored w (staged_entries fs).
Proof.
  intros Hfs. unfold blobs_stored, staged_entries. apply Forall_map.
  eapply Forall_impl; [exact Hfs|]. intros pc Hpc. by exists pc.2.
Qed.

Lemma tracked_kept w w' staged made :
  objects_kept w w' -> contents_stored w staged ->
  history_ok w (commit_infos made) ->
  Forall (fun s => contents_stored w (s_files s)) made ->
  contents_stored w' staged
  /\ history_ok w' (commit_infos made)
  /\ Forall (fun s => contents_stored w' (s_files s)) made.
Proof.
  intros Hk Hst Hh Hm. split_and!.
  - by apply (contents_stored_kept w).
  - by apply (history_ok_kept w).
  - eapply Forall_impl; [exact Hm|]. intros s Hs.
    by apply (contents_stored_kept w).
Qed.

Lemma exec_add_tracked w staged made f c :
  JSON_roundtrip ->
  files w !! f = Some c ->
  tracked w staged made -> objects_kept w (exec (Add f) w) ->
  tracked (exec (Add f) w) (staged ++ [(f, c)]) made.
Proof.
  intros RT Hf (Hh & Hi & Hst & Hhist & Hm) Hk. cbn [exec] in *.
  destruct (add_effect w f c _ RT Hf Hi (is_plain_entries _))
    as (w' & Ha & Hi' & Hs & Hrest).
  rewrite Ha in *. cbn [snd] in *.
  destruct (tracked_kept w w' staged made Hk Hst Hhist Hm)
    as (Hst' & Hhist' & Hm').
  split_and!.
  - unfold head_is. rewrite Hrest; [done| |]; path_ne.
  - unfold staged_entries. by rewrite !map_app.
  - apply Forall_app. split; [exact Hst'|]. by apply Forall_singleton.
  - exact Hhist'.
  - exact Hm'.
Qed.

Lemma exec_add_unreadable w staged made f :
  files w !! f = None ->
  tracked w staged made -> tracked (exec (Add f) w) staged made.
Proof.
  intros Hf Ht. cbn [exec]. by rewrite (add_throws_on_missing_file w f Hf).
Qed.

Lemma exec_commit_tracked w staged made m ts :
  JSON_roundtrip ->
  tracked w staged made -> objects_kept w (exec (Commit m ts) w) ->
  tracked (exec (Commit m ts) w) [] (Snapshot m ts staged :: made).
Proof.
  intros RT (Hh & Hi & Hst & Hhist & Hm) Hk. cbn [exec] in *.
  assert (Hv : head_value w = VStr (head_of (commit_infos made))).
  { unfold head_value. by rewrite Hh. }
  destruct (commit_effect w m ts _ RT Hi (is_plain_entries _))
    as (w' & Hcm & Hi' & Hh' & _ & Hs & _).
  rewrite Hv in *. rewrite Hcm in *. cbn [snd] in *.
  destruct (tracked_kept w w' staged made Hk Hst Hhist Hm)
    as (Hst' & Hhist' & Hm').
  split_and!.
  - exact Hh'.
  - exact Hi'.
  - by apply Forall_nil.
  - cbn [commit_infos history_ok c_hash c_files s_files s_message s_timeStamp].
    split_and!.
    + exact Hs.
    + reflexivity.
    + by apply contents_blobs_stored.
    + exact Hhist'.
  - apply Forall_cons. by split.
Qed.

Lemma exec_edit_tracked w staged made f c :
  String.prefix repoPath f = false ->
  tracked w staged made -> tracked (exec (Edit f c) w) staged made.
Proof.
  intros Hf (Hh & (text & Hi & Hp) & Hst & Hhist & Hm).
  destruct (not_repo_path f Hf) as (Hf1 & Hf2 & Hf3).
  assert (Hk : objects_kept w (exec (Edit f c) w)).
  { intros k c' Hk. cbn. by rewrite lookup_insert_ne. }
  destruct (tracked_kept w _ staged made Hk Hst Hhist Hm)
    as (Hst' & Hhist' & Hm').
  split_and!; [| |exact Hst'|exact Hhist'|exact Hm'].
  - unfold head_is. cbn. by rewrite lookup_insert_ne.
  - exists text. split; [|done]. cbn. by rewrite lookup_insert_ne.
Qed.

Lemma run_tracked cmds :
  JSON_roundtrip ->
  forall w staged made,
    tracked w staged made -> clean cmds w ->
    exists staged', tracked (run cmds w) staged' (snapshots cmds w staged made).
Proof.
  intros RT. induction cmds as [|c cmds IH]; intros w staged made Hok Hclean.
  - by exists staged.
  - destruct Hclean as [Hstep Hclean]. destruct c as [f|m ts|f c];
      cbn [snapshots run foldl].
    + destruct (files w !! f) as [c|] eqn:Hf.
      * apply IH; [|exact Hclean]. by apply exec_add_tracked.
      * apply IH; [|exact Hclean]. by apply exec_add_unreadable.
    + apply IH; [|exact Hclean]. by apply exec_commit_tracked.
    + apply IH; [|exact Hclean]. by apply exec_edit_tracked.
Qed.

Lemma snapshots_commits cmds :
  forall w staged made,
    map (fun s => (VStr (s_message s), VStr (s_timeStamp s)))
      (snapshots cmds w staged made)
    = rev (commits_of cmds)
      ++ map (fun s => (VStr (s_message s), VStr (s_timeStamp s))) made.
Proof.
  induction cmds as [|c cmds IH]; intros w staged made; [done|].
  destruct c as [f|m ts|f c]; cbn [snapshots commits_of].
  - destruct (files w !! f); apply IH.
  - rewrite IH. cbn [rev map s_message s_timeStamp].
    by rewrite <- app_assoc.
  - apply IH.
Qed.

Lemma commit_infos_app newer rest :
  exists pre, commit_infos (newer ++ rest) = pre ++ commit_infos rest.
Proof.
  induction newer as [|s newer [pre IH]]; [by exists []|].
  cbn [app commit_infos]. rewrite IH. by eexists (_ :: pre).
Qed.

Lemma first_with_path_entries p fs :
  first_with_path p (staged_entries fs)
  = match first_with_path p fs with
    | Some pc => Some (pc.1, hashObject pc.2)
    | None => None
    end.
Proof.
  induction fs as [|pc fs IH]; [done|].
  cbn [staged_entries map first_with_path fst]. fold (staged_entries fs).
  by destruct (String.eqb pc.1 p).
Qed.

Lemma blob_content w c :
  files w !! objPath (hashObject c) = Some c -> blob w (hashObject c) = c.
Proof. intros Hc. unfold blob. by rewrite Hc. Qed.

(** The report of a file read from the store is the report of its
    content. *)
Lemma file_report_content w parent pc :
  files w !! objPath (hashObject pc.2) = Some pc.2 ->
  match parent with
  | Some fs => contents_stored w fs
  | None => True
  end ->
  file_report w
    match parent with
    | Some fs => Some (staged_entries fs)
    | None => None
    end (pc.1, hashObject pc.2)
  = content_report parent pc.
Proof.
  intros Hc Hp. unfold file_report, content_report. cbn [fst snd].
  rewrite (blob_content w _ Hc). f_equal.
  destruct parent as [fs|]; [|done].
  rewrite first_with_path_entries.
  destruct (first_with_path pc.1 fs) as [pc'|] eqn:Hf; [|done].
  cbn [snd]. apply first_with_path_In in Hf.
  unfold contents_stored in Hp. rewrite Forall_forall in Hp.
  by rewrite (blob_content w _ (Hp _ Hf)).
Qed.

Lemma show_output_snapshot w s older :
  contents_stored w (s_files s) ->
  Forall (fun s => contents_stored w (s_files s)) older ->
  show_output w
    (Info (hashObject
             (JSON_stringify
                (commit_record (s_timeStamp s) (s_message s)
                   (VArr (map (fun e => entry e.1 e.2)
                            (staged_entries (s_files s))))
                   (VStr (head_of (commit_infos older))))))
       (s_timeStamp s) (s_message s) (staged_entries (s_files s)))
    (commit_infos older)
  = snapshot_output s older.
Proof.
  intros Hs Ho. unfold show_output, snapshot_output. cbn [c_files]. f_equal.
  set (parent := match older with
                 | [] => None
                 | p :: _ => Some (s_files p)
                 end).
  assert (Hpf : parent_files (commit_infos older)
                = match parent with
                  | Some fs => Some (staged_entries fs)
                  | None => None
                  end).
  { subst parent. by destruct older. }
  assert (Hp : match parent with
               | Some fs => contents_stored w fs
               | None => True
               end).
  { subst parent. destruct older as [|p older']; [done|].
    by inversion Ho. }
  rewrite Hpf. clearbody parent. clear Hpf Ho.
  induction Hs as [|pc fs Hpc _ IH]; [done|].
  cbn [staged_entries map flat_map]. fold (staged_entries fs).
  by rewrite IH, (file_report_content w parent pc Hpc Hp).
Qed.

(** X16: after any session of [add], [commit] and edits of working
    files that starts on a fresh repository and meets no hash
    collision, the commits of the history are those of the session,
    newest first, each with the files staged for it; every one is
    stored under its hash with the blobs of its files, and [HEAD]
    names the newest.  On each of them [showCommitDiff] returns normally and
    prints its heading and, for each staged file in order, the path,
    the content the file had when it was added, and then "First
    commit" (the oldest commit), "New file in this commit" (no file of
    that path in the parent) or the diff against the content of the
    first file of that path in the parent. *)
Theorem show_after_session (w0 : world) (cmds : list cmd) :
  JSON_roundtrip -> digest_nonempty ->
  head_is w0 "" -> index_is w0 [] -> clean cmds w0 ->
  map (fun s => (VStr (s_message s), VStr (s_timeStamp s)))
    (snapshots cmds w0 [] [])
  = rev (commits_of cmds)
  /\ head_is (run cmds w0) (head_of (commit_infos (snapshots cmds w0 [] [])))
  /\ history_ok (run cmds w0) (commit_infos (snapshots cmds w0 [] []))
  /\ forall newer s older,
       snapshots cmds w0 [] [] = newer ++ s :: older ->
       showCommitDiff (head_of (commit_infos (s :: older))) (run cmds w0)
       = (Ok tt, says (snapshot_output s older) (run cmds w0)).
Proof.
  intros RT NE Hh Hi Hclean.
  assert (Hok : tracked w0 [] []).
  { split_and!; [exact Hh|exact Hi|by apply Forall_nil|done
                |by apply Forall_nil]. }
  destruct (run_tracked cmds RT w0 [] [] Hok Hclean)
    as (staged & Hh' & _ & _ & Hhist & Hm).
  split_and!.
  - rewrite snapshots_commits. cbn [map]. by rewrite app_nil_r.
  - exact Hh'.
  - exact Hhist.
  - intros newer s older Hss. rewrite Hss in Hhist, Hm.
    destruct (commit_infos_app newer (s :: older)) as [pre Hpre].
    rewrite Hpre in Hhist. apply history_ok_suffix in Hhist.
    apply Forall_app in Hm as [_ Hm]. inversion Hm as [|? ? Hs Ho]; subst.
    cbn [commit_infos] in Hhist. cbn [commit_infos head_of].
    rewrite (show_history_commit _ _ _ RT NE Hhist).
    by rewrite (show_output_snapshot _ s older Hs Ho).
Qed.

(** *** Sequences of [add] *)

(** X17: staging the readable working files [fs] one after the other
    appends one entry per file to the index, in the order of the
    calls, each with the hash of the content the file had before the
    first call. *)
Theorem add_sequence (fs : list string) (w : world) (idx : list value) :
  JSON_roundtrip ->
  index_is w idx -> is_plain (VArr idx) = true ->
  Forall (fun f => String.prefix repoPath f = false
                   /\ is_Some (files w !! f)) fs ->
  index_is (run (map Add fs) w)
    (idx ++ map (fun f => entry f (hashObject (file_text w f))) fs).
Proof.
  intros RT. revert w idx.
  induction fs as [|f fs IH]; intros w idx Hi Hplain Hfs.
  - cbn. by rewrite app_nil_r.
  - inversion Hfs as [|? ? [Hf [c Hc]] Hfs']; subst.
    destruct (add_effect w f c idx RT Hc Hi Hplain)
      as (w1 & Ha & Hi1 & _ & Hrest).
    assert (Hsame : forall g, String.prefix repoPath g = false ->
                              files w1 !! g = files w !! g).
    { intros g Hg. destruct (not_repo_path g Hg) as (_ & Hg2 & Hg3).
      by apply Hrest. }
    assert (Hfs1 : Forall (fun f => String.prefix repoPath f = false
                                    /\ is_Some (files w1 !! f)) fs).
    { eapply Forall_impl; [exact Hfs'|]. intros g [Hg Hsome].
      split; [exact Hg|]. by rewrite Hsame. }
    assert (Hplain1 : is_plain (VArr (idx ++ [entry f (hashObject c)])) = true).
    { rewrite is_plain_app, Hplain. reflexivity. }
    pose proof (IH w1 _ Hi1 Hplain1 Hfs1) as Hi'.
    cbn [map run foldl exec]. rewrite Ha. cbn [snd].
    fold (run (map Add fs) w1).
    rewrite <- app_assoc in Hi'. cbn [app] in Hi'.
    unfold file_text at 1. rewrite Hc. cbn [default].
    assert (Hmap : map (fun f0 => entry f0 (hashObject (file_text w1 f0))) fs
                   = map (fun f0 => entry f0 (hashObject (file_text w f0))) fs).
    { apply map_ext_Forall. eapply Forall_impl; [exact Hfs'|].
      intros g [Hg _]. cbn beta. unfold file_text. by rewrite Hsame. }
    by rewrite <- Hmap.
Qed.


End Further.

(** ** The reference runtime satisfies what the proofs assume *)

Module RefFacts.
Import Ref.

#[local] Arguments String.append !_ _ / : simpl nomatch.

Lemma append_assoc (a b c : string) : (a +:+ b) +:+ c = a +:+ (b +:+ c).
Proof. induction a as [|x a IH]; simpl; [done|]. by f_equal. Qed.

Lemma length_append (a b : string) :
  String.length (a +:+ b) = (String.length a + String.length b)%nat.
Proof. induction a as [|x a IH]; simpl; [done|]. by f_equal. Qed.

(** The three forms of a character in a string literal. *)
Lemma parse_chars_plain c t :
  Ascii.eqb c dquote = false -> Ascii.eqb c backslash = false ->
  (N_of_ascii c <? 32)%N = false ->
  parse_chars (String c t) = continue c t.
Proof. intros H1 H2 H3. unfold continue. cbn [parse_chars]. by rewrite H1, H2, H3. Qed.

Lemma parse_chars_simple e c t :
  Ascii.eqb e "u" = false -> simple_escape e = Some c ->
  parse_chars (String backslash (String e t)) = continue c t.
Proof.
  intros H1 H2. unfold continue. cbn [parse_chars].
  change (Ascii.eqb backslash dquote) with false.
  change (Ascii.eqb backslash backslash) with true.
  cbv iota. by rewrite H1, H2.
Qed.

Lemma parse_chars_unicode a b x y t :
  hex_value a = Some x -> hex_value b = Some y -> (x <? 8)%N = true ->
  parse_chars
    (String backslash (String "u" (String "0" (String "0" (String a (String b t))))))
  = continue (ascii_of_N (16 * x + y)) t.
Proof.
  intros H1 H2 H3. unfold continue. cbn [parse_chars].
  change (Ascii.eqb backslash dquote) with false.
  change (Ascii.eqb backslash backslash) with true.
  change (Ascii.eqb "u" "u") with true.
  change (hex_value "0") with (Some 0%N).
  cbv iota. by rewrite H1, H2, H3.
Qed.

Lemma escape_char_cases c :
  (escape_char c = String c EmptyString
   /\ Ascii.eqb c dquote = false /\ Ascii.eqb c backslash = false
   /\ (N_of_ascii c <? 32)%N = false)
  \/ (exists e,
        escape_char c = String backslash (String e EmptyString)
        /\ Ascii.eqb e "u" = false /\ simple_escape e = Some c)
  \/ (exists a b x y,
        escape_char c
        = String backslash (String "u" (String "0" (String "0"
            (String a (String b EmptyString)))))
        /\ hex_value a = Some x /\ hex_value b = Some y
        /\ (x <? 8)%N = true /\ ascii_of_N (16 * x + y) = c).
Proof.
  destruct c as [[] [] [] [] [] [] [] []];
    first [ left; repeat split; vm_compute; reflexivity
          | right; left; eexists; repeat split; vm_compute; reflexivity
          | right; right; do 4 eexists; split; [vm_compute; reflexivity|];
            repeat split; vm_compute; reflexivity ].
Qed.

Lemma parse_chars_escape_char c t :
  parse_chars (escape_char c +:+ t) = continue c t.
Proof.
  destruct (escape_char_cases c)
    as [(-> & H1 & H2 & H3)
       |[(e & -> & H1 & H2)|(a & b & x & y & -> & H1 & H2 & H3 & H4)]].
  - by apply parse_chars_plain.
  - by apply parse_chars_simple.
  - rewrite <- H4. by apply parse_chars_unicode.
Qed.

Lemma parse_chars_escape s rest :
  parse_chars (escape s +:+ String dquote rest) = Some (s, rest).
Proof.
  induction s as [|c s IH]; [done|].
  cbn [escape]. rewrite append_assoc, parse_chars_escape_char.
  unfold continue. by rewrite IH.
Qed.

Lemma stringify_arr l : stringify (VArr l) = "[" +:+ stringify_elems l.
Proof. reflexivity. Qed.

Lemma stringify_obj ps : stringify (VObj ps) = "{" +:+ stringify_members true ps.
Proof. reflexivity. Qed.

Lemma size_arr l : size (VArr l) = S (size_elems l).
Proof. reflexivity. Qed.

Lemma size_obj ps : size (VObj ps) = S (size_members ps).
Proof. reflexivity. Qed.

Lemma stringify_head v :
  is_plain v = true ->
  exists c s, stringify v = String c s /\ Ascii.eqb "]" c = false.
Proof.
  destruct v as [| |[]|r|s|l|ps]; try discriminate; intros _;
    by eexists _, _.
Qed.

Lemma parse_value_quote fuel s rest :
  parse_value (S fuel) (quote s +:+ rest) = Some (VStr s, rest).
Proof.
  unfold quote. simpl. rewrite append_assoc. simpl.
  change (Ascii.eqb dquote "n") with false.
  change (Ascii.eqb dquote "t") with false.
  change (Ascii.eqb dquote "f") with false.
  change (Ascii.eqb dquote dquote) with true.
  cbv iota. by rewrite parse_chars_escape.
Qed.

Lemma parse_value_arr_cons fuel v l rest :
  is_plain v = true ->
  parse_value (S fuel) (stringify (VArr (v :: l)) +:+ rest)
  = match parse_elems fuel (stringify_elems (v :: l) +:+ rest) with
    | Some (l', rest') => Some (VArr l', rest')
    | None => None
    end.
Proof.
  intros Hv. rewrite stringify_arr. cbn [stringify_elems].
  destruct (stringify_head v Hv) as (c & s & -> & Hc).
  cbn [String.append parse_value strip].
  change (Ascii.eqb "[" "n") with false.
  change (Ascii.eqb "[" "t") with false.
  change (Ascii.eqb "[" "f") with false.
  change (Ascii.eqb "[" dquote) with false.
  change (Ascii.eqb "[" "[") with true.
  cbv iota. by rewrite Hc.
Qed.

(** The members of an object after the first. *)
Lemma parse_value_obj_cons fuel k v ps rest :
  v <> VUndefined ->
  parse_value (S fuel) (stringify (VObj ((k, v) :: ps)) +:+ rest)
  = match parse_members fuel (stringify_members true ((k, v) :: ps) +:+ rest) with
    | Some (ps', rest') => if keys_ok ps' then Some (VObj ps', rest') else None
    | None => None
    end.
Proof.
  intros Hv. rewrite stringify_obj. cbn [stringify_members].
  destruct v; try done; unfold quote;
    cbn [String.append parse_value strip];
    change (Ascii.eqb "{" "n") with false;
    change (Ascii.eqb "{" "t") with false;
    change (Ascii.eqb "{" "f") with false;
    change (Ascii.eqb "{" dquote) with false;
    change (Ascii.eqb "{" "[") with false;
    change (Ascii.eqb "{" "{") with true;
    change (Ascii.eqb "}" dquote) with false;
    reflexivity.
Qed.

Lemma stringify_members_true k v ps :
  v <> VUndefined ->
  stringify_members true ((k, v) :: ps) = members_text ((k, v) :: ps).
Proof. by destruct v. Qed.

Lemma stringify_members_false k v ps :
  v <> VUndefined ->
  stringify_members false ((k, v) :: ps) = "," +:+ members_text ((k, v) :: ps).
Proof. by destruct v. Qed.

Lemma parse_elems_stringify l :
  Forall parses l -> forallb is_plain l = true -> l <> [] ->
  forall fuel rest,
    (size_elems l <= fuel)%nat ->
    parse_elems fuel (stringify_elems l +:+ rest) = Some (l, rest).
Proof.
  induction 1 as [|v l Hv Hl IH]; [done|].
  cbn [forallb]. intros [Hpv Hpl]%andb_prop _ fuel rest Hfuel.
  cbn [size_elems] in Hfuel. destruct fuel as [|fuel]; [lia|].
  cbn [stringify_elems parse_elems]. rewrite append_assoc.
  rewrite (Hv Hpv) by lia.
  destruct l as [|v2 l].
  - reflexivity.
  - cbn [String.append].
    change (Ascii.eqb "," "]") with false.
    change (Ascii.eqb "," ",") with true. cbv iota.
    rewrite IH; [done|done|done|lia].
Qed.

Lemma is_plain_not_undefined v : is_plain v = true -> v <> VUndefined.
Proof. by destruct v. Qed.

Lemma parse_members_text ps :
  Forall (fun kv => parses kv.2) ps ->
  forallb (fun kv => is_plain kv.2) ps = true -> ps <> [] ->
  forall fuel rest,
    (size_members ps <= fuel)%nat ->
    parse_members fuel (members_text ps +:+ rest) = Some (ps, rest).
Proof.
  induction 1 as [|[k v] ps Hv Hps IH]; [done|].
  cbn [forallb snd]. intros [Hpv Hpl]%andb_prop _ fuel rest Hfuel.
  cbn [size_members] in Hfuel. destruct fuel as [|fuel]; [lia|].
  cbn [members_text parse_members]. unfold quote at 1.
  cbn [String.append strip].
  change (Ascii.eqb dquote dquote) with true. cbv iota.
  rewrite !append_assoc. cbn [String.append]. rewrite parse_chars_escape.
  change (Ascii.eqb ":" ":") with true. cbv iota. rewrite ?append_assoc.
  rewrite (Hv Hpv) by (cbn [snd]; lia).
  destruct ps as [|[k2 v2] ps].
  - reflexivity.
  - assert (Hv2 : v2 <> VUndefined).
    { cbn [forallb snd] in Hpl. apply andb_prop in Hpl as [Hpl _].
      by apply is_plain_not_undefined. }
    rewrite (stringify_members_false k2 v2 ps Hv2). cbn [String.append].
    change (Ascii.eqb "," "}") with false.
    change (Ascii.eqb "," ",") with true. cbv iota.
    rewrite IH; [done|done|done|lia].
Qed.

Lemma is_plain_obj_members ps :
  is_plain (VObj ps) = true -> forallb (fun kv => is_plain kv.2) ps = true.
Proof.
  cbn [is_plain]. intros [_ Hall]%andb_prop. revert Hall.
  induction ps as [|[k v] ps IH]; [done|]. cbn [forallb snd].
  intros [[_ Hv]%andb_prop Hps]%andb_prop. rewrite Hv. by apply IH.
Qed.

Lemma is_plain_keys_ok ps : is_plain (VObj ps) = true -> keys_ok ps = true.
Proof.
  cbn [is_plain]. unfold keys_ok. intros [-> Hall]%andb_prop.
  cbn [andb]. revert Hall.
  induction ps as [|[k v] ps IH]; [done|]. cbn [forallb fst].
  intros [[-> _]%andb_prop Hps]%andb_prop. by apply IH.
Qed.

Lemma parse_value_stringify v : parses v.
Proof.
  induction v as [| |b|r|s|l IH|ps IH] using value_nested_ind;
    intros Hplain fuel rest Hfuel; try discriminate Hplain;
    (destruct fuel as [|fuel]; [cbn in Hfuel; lia|]).
  - reflexivity.
  - by destruct b.
  - apply parse_value_quote.
  - destruct l as [|v l]; [reflexivity|].
    assert (Hpl : forallb is_plain (v :: l) = true) by exact Hplain.
    rewrite parse_value_arr_cons
      by (cbn [forallb] in Hpl; by apply andb_prop in Hpl as [? _]).
    rewrite size_arr in Hfuel.
    rewrite parse_elems_stringify; [done|done|done|done|lia].
  - destruct ps as [|[k v] ps]; [reflexivity|].
    pose proof (is_plain_obj_members _ Hplain) as Hpl.
    assert (Hv : v <> VUndefined).
    { cbn [forallb snd] in Hpl. apply andb_prop in Hpl as [Hpl _].
      by apply is_plain_not_undefined. }
    rewrite parse_value_obj_cons by done.
    rewrite stringify_members_true by done.
    rewrite size_obj in Hfuel.
    rewrite parse_members_text; [|done|done|done|lia].
    by rewrite (is_plain_keys_ok _ Hplain).
Qed.

Lemma size_elems_le_length l :
  Forall (fun v => is_plain v = true ->
                   (size v <= String.length (stringify v))%nat) l ->
  forallb is_plain l = true ->
  (size_elems l <= String.length (stringify_elems l))%nat.
Proof.
  induction 1 as [|v l Hv Hl IH]; [cbn; lia|].
  cbn [forallb]. intros [Hpv Hpl]%andb_prop.
  cbn [size_elems stringify_elems]. rewrite length_append.
  specialize (Hv Hpv). specialize (IH Hpl).
  destruct l; [cbn in *; lia|].
  rewrite length_append. cbn [String.length]. lia.
Qed.

Lemma size_members_le_length ps first :
  Forall (fun kv => is_plain kv.2 = true ->
                    (size kv.2 <= String.length (stringify kv.2))%nat) ps ->
  forallb (fun kv => is_plain kv.2) ps = true ->
  (size_members ps <= String.length (stringify_members first ps))%nat.
Proof.
  intros Hall. revert first.
  induction Hall as [|[k v] ps Hv Hps IH]; intros first; [cbn; lia|].
  cbn [forallb snd]. intros [Hpv Hpl]%andb_prop.
  specialize (Hv Hpv). specialize (IH false Hpl). cbn [snd] in Hv.
  cbn [size_members].
  assert (Hlen : (String.length (stringify v)
                  + String.length (stringify_members false ps)
                  < String.length (stringify_members first ((k, v) :: ps)))%nat).
  { destruct v; try discriminate Hpv; cbn [stringify_members];
      rewrite !length_append; unfold quote; cbn [String.length]; lia. }
  lia.
Qed.

Lemma size_le_length v :
  is_plain v = true -> (size v <= String.length (stringify v))%nat.
Proof.
  induction v as [| |b|r|s|l IH|ps IH] using value_nested_ind;
    intros Hplain; try discriminate Hplain.
  - cbn. lia.
  - destruct b; cbn; lia.
  - cbn. lia.
  - rewrite size_arr, stringify_arr. cbn [String.append String.length].
    pose proof (size_elems_le_length l IH Hplain). lia.
  - rewrite size_obj, stringify_obj. cbn [String.append String.length].
    pose proof (size_members_le_length ps true IH (is_plain_obj_members _ Hplain)).
    lia.
Qed.

(** [parse] reads back what [stringify] writes. *)
Lemma roundtrip : @JSON_roundtrip runtime.
Proof.
  intros v Hplain. cbn [JSON_parse JSON_stringify runtime]. unfold parse.
  pose proof (parse_value_stringify v Hplain (String.length (stringify v))
                EmptyString (size_le_length v Hplain)) as Hp.
  assert (Hnil : forall s, s +:+ EmptyString = s).
  { induction s as [|c s IHs]; [done|]. cbn [String.append]. by rewrite IHs. }
  rewrite Hnil in Hp. by rewrite Hp.
Qed.

Lemma parse_null : @JSON_parse_null runtime.
Proof. reflexivity. Qed.

Lemma nonempty : @digest_nonempty runtime.
Proof.
  intros c. change (Ref.sha1_hex c <> EmptyString). unfold Ref.sha1_hex.
  destruct (blocks _ _ _) as [[[[a b] c'] d] e]. discriminate.
Qed.


End RefFacts.

(** ** The theorems at work on concrete repositories *)

Section Demo.
#[local] Existing Instance Ref.runtime.

Example sha1_hex_empty :
  Ref.sha1_hex "" = "da39a3ee5e6b4b0d3255bfef95601890afd80709".
Proof. vm_compute. reflexivity. Qed.

Example sha1_hex_abc :
  Ref.sha1_hex "abc" = "a9993e364706816aba3e25717850c26c9cd0d89d".
Proof. vm_compute. reflexivity. Qed.

Example sha1_hex_two_blocks :
  Ref.sha1_hex "abcdbcdecdefdefgefghfghighijhijkijkljklmklmnlmnomnopnopq"
  = "84983e441c3bd26ebaae4aa1f95129e5e54670f1".
Proof. vm_compute. reflexivity. Qed.

Example fresh_head : files fresh !! headPath = Some "".
Proof. vm_compute. reflexivity. Qed.

Example fresh_index : files fresh !! indexPath = Some "[]".
Proof. vm_compute. reflexivity. Qed.

Lemma fresh_index_is : index_is fresh [].
Proof. exists "[]". split; vm_compute; reflexivity. Qed.

Lemma session_clean : clean session fresh.
Proof.
  cbn [clean session].
  repeat split; try (apply objects_keptb_sound); vm_compute; reflexivity.
Qed.

Lemma fresh_file : files fresh !! "a.txt" = Some hello.
Proof. vm_compute. reflexivity. Qed.

Lemma add_then_commit_witness :
  (files fresh !! "a.txt" = Some hello /\ head_is fresh "" /\ index_is fresh []
   /\ is_plain (VArr []) = true)
  /\ exists w1 w2 staged before r,
      add "a.txt" fresh = (Ok tt, w1)
      /\ index_is w1 staged
      /\ staged = [] ++ [entry "a.txt" (hashObject hello)]
      /\ getCurrentHead w1 = (Ok before, w1)
      /\ before = VStr ""
      /\ commit "c1" "2024-01-01T00:00:00.000Z" w1 = (Ok tt, w2)
      /\ index_is w2 []
      /\ head_is w2 (hashObject (JSON_stringify r))
      /\ stored_record w2 (hashObject (JSON_stringify r)) r
      /\ get r "files" = VArr staged
      /\ get r "parent" = before.
Proof.
  split.
  - split_and!; [apply fresh_file|apply fresh_head|apply fresh_index_is|done].
  - exact (add_then_commit fresh "a.txt" "c1" "2024-01-01T00:00:00.000Z" hello
             "" [] RefFacts.roundtrip fresh_file fresh_head fresh_index_is
             eq_refl).
Defined.

Lemma log_after_commits_witness :
  (head_is fresh "" /\ index_is fresh [] /\ clean session fresh)
  /\ exists recs,
      map (fun kr => (get kr.2 "message", get kr.2 "timeStamp")) recs
      = rev (commits_of session)
      /\ length recs = length (commits_of session)
      /\ (forall fuel,
          length recs <= fuel ->
          log fuel (run session fresh)
          = Some (Ok tt, says (log_output recs) (run session fresh)))
      /\ Forall (fun kr => stored_record (run session fresh) kr.1 kr.2) recs
      /\ linked recs
      /\ (forall k r, last recs = Some (k, r) ->
          get r "parent" = VStr "" /\ get r "parent" <> VNull).
Proof.
  split.
  - split_and!; [apply fresh_head|apply fresh_index_is|apply session_clean].
  - exact (log_after_commits fresh session RefFacts.roundtrip RefFacts.nonempty
             fresh_head fresh_index_is session_clean).
Defined.

(** The first commit of a fresh repository, run: its record has the
    empty string, and not [null], as its parent. *)
Example first_commit_record :
  exists k text,
    files (commit "c1" "2024-01-01T00:00:00.000Z" fresh).2 !! headPath = Some k
    /\ files (commit "c1" "2024-01-01T00:00:00.000Z" fresh).2 !! objPath k
       = Some text
    /\ JSON_parse text
       = Some (commit_record "2024-01-01T00:00:00.000Z" "c1" (VArr []) (VStr ""))
    /\ JSON_parse text
       <> Some (commit_record "2024-01-01T00:00:00.000Z" "c1" (VArr []) VNull).
Proof.
  eexists _, _. split; [vm_compute; reflexivity|].
  split; [vm_compute; reflexivity|].
  split; [vm_compute; reflexivity|]. vm_compute. discriminate.
Qed.

Lemma show_unknown_hash_witness :
  (JSON_parse_null /\ segment "0123456789abcdef" = true
   /\ files fresh !! objPath "0123456789abcdef" = None)
  /\ showCommitDiff "0123456789abcdef" fresh
     = (Ok tt,
        say (Log "Commit not found")
          (say (LogError "Failed to read the commit data"
                  (ENOENT (objPath "0123456789abcdef"))) fresh)).
Proof.
  assert (Hn : files fresh !! objPath "0123456789abcdef" = None)
    by (vm_compute; reflexivity).
  split.
  - split_and!; [apply RefFacts.parse_null|reflexivity|exact Hn].
  - exact (proj1 (show_unknown_hash fresh "0123456789abcdef"
                    RefFacts.parse_null eq_refl) Hn).
Defined.

(** Against C3 as stated: the hash of a staged blob addresses no
    commit object, for the object stored under it is the content of
    the file and that is not JSON; [showCommitDiff] on it throws a
    SyntaxError and does not return. *)
Lemma show_blob_hash_throws :
  segment (hashObject hello) = true
  /\ files staged !! objPath (hashObject hello) = Some hello
  /\ JSON_parse hello = None
  /\ showCommitDiff (hashObject hello) staged = (Throw SyntaxError, staged)
  /\ forall w', showCommitDiff (hashObject hello) staged <> (Ok tt, w').
Proof.
  assert (Hs : showCommitDiff (hashObject hello) staged
               = (Throw SyntaxError, staged)) by (vm_compute; reflexivity).
  split_and!; [reflexivity|vm_compute; reflexivity|vm_compute; reflexivity
              |exact Hs|].
  intros w' E. rewrite Hs in E. discriminate E.
Qed.

Lemma duplicate_path_entries_witness :
  (files fresh !! "a.txt" = Some hello /\ index_is fresh []
   /\ is_plain (VArr []) = true)
  /\ exists w1 c2 w2 w3 k r,
      add "a.txt" fresh = (Ok tt, w1)
      /\ files w1 !! "a.txt" = Some c2
      /\ add "a.txt" w1 = (Ok tt, w2)
      /\ commit "twice" "2024-01-01T00:00:00.000Z" w2 = (Ok tt, w3)
      /\ head_is w3 k
      /\ stored_record w3 k r
      /\ get r "files"
         = VArr ([] ++ [entry "a.txt" (hashObject hello);
                        entry "a.txt" (hashObject c2)]).
Proof.
  split.
  - split_and!; [apply fresh_file|apply fresh_index_is|done].
  - exact (proj1 (duplicate_path_entries fresh "a.txt" "twice"
                    "2024-01-01T00:00:00.000Z" hello [] RefFacts.roundtrip
                    fresh_file fresh_index_is eq_refl)).
Defined.

Lemma blob_round_trip_witness :
  files fresh !! "a.txt" = Some (utf8_text hello)
  /\ utf8_text (utf8_text hello) = utf8_text hello
  /\ (exists r w',
        add "a.txt" fresh = (r, w')
        /\ files w' !! objPath (hashObject (utf8_text hello))
           = Some (utf8_text hello)
        /\ getFileContent (VStr (hashObject (utf8_text hello))) w'
           = (Ok (utf8_text hello), w'))
  /\ (utf8_text hello = hello ->
      exists r w',
        add "a.txt" fresh = (r, w')
        /\ files w' !! objPath (hashObject hello) = Some hello
        /\ getFileContent (VStr (hashObject hello)) w' = (Ok hello, w')).
Proof.
  split; [apply fresh_file|].
  exact (blob_round_trip fresh "a.txt" hello fresh_file).
Defined.

(** Against C6 as stated: a file that holds the bytes [66 ff 0a] is
    read as the text [66 ef bf bd 0a]; [add] returns, and stores that
    text under the hash of that text.  Nothing is stored under the
    hash of the bytes, and reading it throws. *)
Lemma invalid_bytes_not_stored :
  utf8_text raw = String "f" (replacement +:+ newline)
  /\ utf8_text raw <> raw
  /\ files raw_repo !! "a.bin" = Some (utf8_text raw)
  /\ (add "a.bin" raw_repo).1 = Ok tt
  /\ hashObject raw = "36b5463f32ae1b46229296b74e13d2a1bf7ce240"
  /\ hashObject (utf8_text raw) = "163eadb14ab1f14895b614ddd9e068ee0e1a2d88"
  /\ files (add "a.bin" raw_repo).2 !! objPath (hashObject (utf8_text raw))
     = Some (utf8_text raw)
  /\ files (add "a.bin" raw_repo).2 !! objPath (hashObject raw) = None
  /\ (getFileContent (VStr (hashObject raw)) (add "a.bin" raw_repo).2).1
     = Throw (ENOENT (objPath (hashObject raw))).
Proof. split_and!; try (vm_compute; reflexivity). vm_compute. discriminate. Qed.

Lemma init_fresh_and_idempotent_witness :
  JSON_roundtrip
  /\ (exists w',
        init bare = (Ok tt, w') /\ head_is w' "" /\ index_is w' []
        /\ (forall k, files w' !! objPath k = files bare !! objPath k)
        /\ exists w'', init w' = (Ok tt, w'') /\ files w'' = files w')
  /\ (exists w', init (run session fresh) = (Ok tt, w')
                 /\ files w' = files (run session fresh))
  /\ files (init bare).2 !! "a.txt" = Some hello.
Proof.
  split; [apply RefFacts.roundtrip|].
  destruct (init_fresh_and_idempotent RefFacts.roundtrip)
    as (Hfresh & Hagain & Hkeeps).
  split_and!.
  - apply Hfresh; vm_compute; reflexivity.
  - apply (Hagain (run session fresh) "9b92d9751e1c70f3ee1971cae818bde51f0d8ae0").
    vm_compute. reflexivity.
  - apply Hkeeps. vm_compute. reflexivity.
Defined.

Lemma commit_empty_index_witness :
  (JSON_roundtrip /\ index_is fresh [])
  /\ exists w' r,
      commit "empty" "2024-01-01T00:00:00.000Z" fresh = (Ok tt, w')
      /\ stored_record w' (hashObject (JSON_stringify r)) r
      /\ r = commit_record "2024-01-01T00:00:00.000Z" "empty" (VArr [])
               (head_value fresh)
      /\ get r "files" = VArr []
      /\ head_is w' (hashObject (JSON_stringify r))
      /\ index_is w' [].
Proof.
  split.
  - split; [apply RefFacts.roundtrip|apply fresh_index_is].
  - exact (commit_empty_index fresh "empty" "2024-01-01T00:00:00.000Z"
             RefFacts.roundtrip fresh_index_is).
Defined.

Lemma staged_head : head_is staged "".
Proof. vm_compute. reflexivity. Qed.

Lemma staged_index :
  index_is staged
    (map (fun e => entry e.1 e.2) [("a.txt", hashObject hello)]).
Proof.
  exists (JSON_stringify (VArr [entry "a.txt" (hashObject hello)])).
  split; vm_compute; reflexivity.
Qed.

Lemma staged_blobs :
  Forall (fun e => is_Some (files staged !! objPath e.2))
    [("a.txt", hashObject hello)].
Proof. repeat constructor. exists hello. vm_compute. reflexivity. Qed.

Lemma empty_head_parent_witness :
  (head_is staged ""
   /\ index_is staged (map (fun e => entry e.1 e.2) [("a.txt", hashObject hello)])
   /\ Forall (fun e => is_Some (files staged !! objPath e.2))
        [("a.txt", hashObject hello)])
  /\ exists w' k r,
      commit "c1" "2024-01-01T00:00:00.000Z" staged = (Ok tt, w')
      /\ head_is w' k
      /\ stored_record w' k r
      /\ get r "parent" = VStr ""
      /\ get r "parent" <> VNull
      /\ (forall fuel,
          log (S fuel) w'
          = Some (Ok tt,
                  says [Log log_separator;
                        Log (log_entry k "2024-01-01T00:00:00.000Z" "c1")] w'))
      /\ (forall fuel w1,
          log_loop fuel (get r "parent") w1 = log_loop fuel VNull w1)
      /\ showCommitDiff k w'
         = (Ok tt,
            says (Log "Changes in the last commit are: "
                  :: flat_map (fun e => [Log ("File: " +:+ e.1);
                                         Log (blob w' e.2);
                                         Log "First commit"])
                       [("a.txt", hashObject hello)]) w')
      /\ (forall file w1,
          show_file r file w1
          = show_file (commit_record "2024-01-01T00:00:00.000Z" "c1"
                         (get r "files") VNull) file w1).
Proof.
  split.
  - split_and!; [apply staged_head|apply staged_index|apply staged_blobs].
  - exact (empty_head_parent staged "c1" "2024-01-01T00:00:00.000Z"
             [("a.txt", hashObject hello)] RefFacts.roundtrip RefFacts.nonempty
             staged_head staged_index staged_blobs).
Defined.

Lemma add_unreadable_changes_nothing_witness :
  files fresh !! "missing.txt" = None
  /\ add "missing.txt" fresh = (Throw (ENOENT "missing.txt"), fresh)
  /\ files (add "missing.txt" fresh).2 = files fresh.
Proof.
  assert (Hf : files fresh !! "missing.txt" = None) by (vm_compute; reflexivity).
  split; [exact Hf|].
  exact (add_unreadable_changes_nothing fresh "missing.txt" Hf).
Defined.

Lemma dangling_references_witness :
  (files (with_head both_missing)
     !! objPath (hashObject (JSON_stringify both_missing))
   = Some (JSON_stringify both_missing)
   /\ JSON_parse (JSON_stringify both_missing) = Some both_missing
   /\ hashObject (JSON_stringify both_missing) <> "")
  /\ log 2 (with_head both_missing)
     = Some (Throw (ENOENT (objPath missing_parent)),
             says [Log log_separator;
                   Log (log_entry (hashObject (JSON_stringify both_missing))
                          "2024-01-02T00:00:00.000Z" "c2")]
               (with_head both_missing))
  /\ showCommitDiff (hashObject (JSON_stringify both_missing))
       (with_head both_missing)
     = (Throw (ENOENT (objPath missing_blob)),
        says [Log "Changes in the last commit are: "; Log "File: a.txt"]
          (with_head both_missing)).
Proof.
  assert (H1 : files (with_head both_missing)
                 !! objPath (hashObject (JSON_stringify both_missing))
               = Some (JSON_stringify both_missing))
    by (vm_compute; reflexivity).
  assert (H2 : JSON_parse (JSON_stringify both_missing) = Some both_missing)
    by (vm_compute; reflexivity).
  assert (H3 : hashObject (JSON_stringify both_missing) <> "")
    by apply RefFacts.nonempty.
  split; [by split_and!|].
  destruct (dangling_references (with_head both_missing) _ _ _ _ _ _ H1 H2 H3)
    as (Hwalk & _ & Hlog & Hshow).
  split.
  - rewrite (Hlog ltac:(vm_compute; reflexivity)).
    apply (Hwalk missing_parent 0%nat);
      [reflexivity|discriminate|vm_compute; reflexivity].
  - apply (proj2 (Hshow [] "a.txt" missing_blob [] eq_refl
                    ltac:(vm_compute; reflexivity)) eq_refl).
Defined.

(** Against C5 as stated: [showCommitDiff] on a commit without files
    whose parent hash has no object returns normally; [log] over a
    commit whose file entry names a blob that has no object returns
    normally; and on a commit with a file, the missing parent makes
    [showCommitDiff] end in a TypeError, after [getCommitData] has
    caught and printed the error of the failed read. *)
Lemma dangling_reference_without_error :
  (files (with_head parent_missing)
     !! objPath (hashObject (JSON_stringify parent_missing))
   = Some (JSON_stringify parent_missing)
   /\ JSON_parse (JSON_stringify parent_missing) = Some parent_missing
   /\ get parent_missing "parent" = VStr missing_parent
   /\ files (with_head parent_missing) !! objPath missing_parent = None
   /\ showCommitDiff (hashObject (JSON_stringify parent_missing))
        (with_head parent_missing)
      = (Ok tt,
         say (Log "Changes in the last commit are: ") (with_head parent_missing)))
  /\ (files (with_head blob_missing)
        !! objPath (hashObject (JSON_stringify blob_missing))
      = Some (JSON_stringify blob_missing)
      /\ JSON_parse (JSON_stringify blob_missing) = Some blob_missing
      /\ get blob_missing "files" = VArr [entry "a.txt" missing_blob]
      /\ files (with_head blob_missing) !! objPath missing_blob = None
      /\ log 1 (with_head blob_missing)
         = Some (Ok tt,
                 says [Log log_separator;
                       Log (log_entry (hashObject (JSON_stringify blob_missing))
                              "2024-01-01T00:00:00.000Z" "c1")]
                   (with_head blob_missing)))
  /\ (files orphan !! objPath (hashObject (JSON_stringify orphan_record))
      = Some (JSON_stringify orphan_record)
      /\ JSON_parse (JSON_stringify orphan_record) = Some orphan_record
      /\ files orphan !! objPath missing_parent = None
      /\ showCommitDiff (hashObject (JSON_stringify orphan_record)) orphan
         = (Throw TypeError,
            says [Log "Changes in the last commit are: "; Log "File: a.txt";
                  Log hello;
                  LogError "Failed to read the commit data"
                    (ENOENT (objPath missing_parent))] orphan)).
Proof. split_and!; vm_compute; reflexivity. Qed.

(** In the session [twice], [showCommitDiff] of the second commit
    compares [a.txt] with its first staged content, not its second. *)
Example show_takes_first_entry :
  exists k,
    files (run twice fresh) !! headPath = Some k
    /\ showCommitDiff k (World (files (run twice fresh)) [])
       = (Ok tt,
          World (files (run twice fresh))
            [Log "Changes in the last commit are: "; Log "File: a.txt";
             Log "third"; Log (String "010" "Diff:");
             Stdout Red ("--" +:+ hello); Stdout Green "++third"; Log ""]).
Proof.
  exists "76b7aea41d84c9a8390ec627a13147a2de203f76".
  split; vm_compute; reflexivity.
Qed.

Lemma init_creates_missing_head_witness :
  (files headless !! headPath = None /\ files headless !! indexPath = Some "[]")
  /\ init headless
     = (Ok tt, say (Log "Already initialised the .duck folder")
                 (set_file headPath "" headless))
  /\ files (init headless).2 !! indexPath = Some "[]"
  /\ files (init headless).2 !! headPath = Some "".
Proof.
  split; [split; vm_compute; reflexivity|].
  apply (init_creates_missing_head headless "[]"); vm_compute; reflexivity.
Defined.

Lemma init_leaves_index_missing_witness :
  (files indexless !! headPath = Some "" /\ files indexless !! indexPath = None)
  /\ init indexless
     = (Ok tt, say (Log "Already initialised the .duck folder") indexless)
  /\ files (init indexless).2 !! indexPath = None
  /\ (forall m ts,
        commit m ts (init indexless).2
        = (Throw (ENOENT indexPath), (init indexless).2))
  /\ (forall f, exists e w', add f (init indexless).2 = (Throw e, w')).
Proof.
  split; [split; vm_compute; reflexivity|].
  apply (init_leaves_index_missing indexless ""); vm_compute; reflexivity.
Defined.

Lemma add_fails_after_blob_witness :
  (files indexless !! "a.txt" = Some hello
   /\ files indexless !! indexPath = None)
  /\ add "a.txt" indexless
     = (Throw (ENOENT indexPath), blob_written hello indexless)
  /\ files (blob_written hello indexless) !! objPath (hashObject hello)
     = Some hello
  /\ files (blob_written hello indexless) !! indexPath = None.
Proof.
  assert (Hf : files indexless !! "a.txt" = Some hello)
    by (vm_compute; reflexivity).
  assert (Hi : files indexless !! indexPath = None)
    by (vm_compute; reflexivity).
  split; [by split|].
  destruct (add_fails_after_blob indexless "a.txt" hello Hf)
    as (Hmissing & _ & _ & Hblob & Hindex).
  split_and!; [by apply Hmissing|exact Hblob|by rewrite Hindex].
Defined.

Lemma headless_index : index_is headless [].
Proof. exists "[]". split; vm_compute; reflexivity. Qed.

Lemma commit_without_head_file_witness :
  (JSON_roundtrip /\ digest_nonempty /\ files headless !! headPath = None
   /\ index_is headless [] /\ is_plain (VArr []) = true)
  /\ exists w' k r,
      commit "c1" "2024-01-01T00:00:00.000Z" headless = (Ok tt, w')
      /\ head_is w' k
      /\ stored_record w' k r
      /\ r = commit_record "2024-01-01T00:00:00.000Z" "c1" (VArr []) VNull
      /\ (forall fuel,
          log (S fuel) w'
          = Some (Ok tt,
                  says [Log log_separator;
                        Log (log_entry k "2024-01-01T00:00:00.000Z" "c1")] w')).
Proof.
  split.
  - split_and!; [apply RefFacts.roundtrip|apply RefFacts.nonempty
                |vm_compute; reflexivity|apply headless_index|done].
  - exact (commit_without_head_file headless "c1" "2024-01-01T00:00:00.000Z" []
             RefFacts.roundtrip RefFacts.nonempty eq_refl headless_index
             eq_refl).
Defined.

Lemma commit_twice_witness :
  (JSON_roundtrip /\ index_is fresh [] /\ is_plain (VArr []) = true)
  /\ exists w1 w2 r1 r2,
      commit "c1" "2024-01-01T00:00:00.000Z" fresh = (Ok tt, w1)
      /\ commit "c2" "2024-01-02T00:00:00.000Z" w1 = (Ok tt, w2)
      /\ r1 = commit_record "2024-01-01T00:00:00.000Z" "c1" (VArr [])
                (head_value fresh)
      /\ r2 = commit_record "2024-01-02T00:00:00.000Z" "c2" (VArr [])
                (VStr (hashObject (JSON_stringify r1)))
      /\ stored_record w2 (hashObject (JSON_stringify r2)) r2
      /\ head_is w2 (hashObject (JSON_stringify r2))
      /\ index_is w2 [].
Proof.
  split.
  - split_and!; [apply RefFacts.roundtrip|apply fresh_index_is|done].
  - exact (commit_twice fresh "c1" "2024-01-01T00:00:00.000Z" "c2"
             "2024-01-02T00:00:00.000Z" [] RefFacts.roundtrip fresh_index_is
             eq_refl).
Defined.

Lemma log_without_commits_witness :
  (files bare !! headPath = None \/ files bare !! headPath = Some "")
  /\ log 3 bare = Some (Ok tt, bare).
Proof.
  assert (Hh : files bare !! headPath = None \/ files bare !! headPath = Some "")
    by (left; vm_compute; reflexivity).
  split; [exact Hh|].
  exact (log_without_commits bare 3 Hh).
Defined.

Lemma log_with_bad_head_witness :
  (head_is stale_head missing_parent /\ missing_parent <> ""
   /\ files stale_head !! objPath missing_parent = None)
  /\ log 1 stale_head
     = Some (Throw (ENOENT (objPath missing_parent)), stale_head).
Proof.
  assert (Hh : head_is stale_head missing_parent) by (vm_compute; reflexivity).
  assert (Hk : missing_parent <> "") by discriminate.
  assert (Hn : files stale_head !! objPath missing_parent = None)
    by (vm_compute; reflexivity).
  split; [by split_and!|].
  exact (proj1 (log_with_bad_head stale_head missing_parent 0 Hh Hk) Hn).
Defined.

Lemma looped_closed :
  forall k, k = "loop" ->
    k <> ""
    /\ exists text ts m fs k',
        files looped !! objPath k = Some text
        /\ JSON_parse text = Some (commit_record ts m fs (VStr k'))
        /\ k' = "loop".
Proof.
  intros k ->. split; [discriminate|].
  exists (JSON_stringify loop_record), "2024-01-01T00:00:00.000Z", "again",
    (VArr []), "loop".
  split_and!; vm_compute; reflexivity.
Qed.

Lemma log_never_ends_on_a_cycle_witness :
  head_is looped "loop" /\ forall fuel, log fuel looped = None.
Proof.
  assert (Hh : head_is looped "loop") by (vm_compute; reflexivity).
  split; [exact Hh|].
  exact (log_never_ends_on_a_cycle (fun k => k = "loop") looped "loop"
           looped_closed Hh eq_refl).
Defined.

Lemma grown_parent :
  files grown !! objPath (hashObject (JSON_stringify first_record))
  = Some (JSON_stringify first_record).
Proof. vm_compute. reflexivity. Qed.

Lemma first_record_parsed :
  JSON_parse (JSON_stringify first_record)
  = Some (commit_record "2024-01-01T00:00:00.000Z" "c1"
            (VArr (map (fun e => entry e.1 e.2) [("a.txt", hashObject hello)]))
            (VStr "")).
Proof. vm_compute. reflexivity. Qed.

Lemma grown_blob : files grown !! objPath (hashObject "bee") = Some "bee".
Proof. vm_compute. reflexivity. Qed.

Lemma show_new_file_witness :
  (hashObject (JSON_stringify first_record) <> ""
   /\ files grown !! objPath (hashObject (JSON_stringify first_record))
      = Some (JSON_stringify first_record)
   /\ Forall (fun e => e.1 <> "b.txt") [("a.txt", hashObject hello)]
   /\ files grown !! objPath (hashObject "bee") = Some "bee")
  /\ show_file
       (commit_record "2024-01-02T00:00:00.000Z" "c2"
          (VArr [entry "b.txt" (hashObject "bee")])
          (VStr (hashObject (JSON_stringify first_record))))
       (entry "b.txt" (hashObject "bee")) grown
     = (Ok tt,
        says [Log "File: b.txt"; Log "bee"; Log "New file in this commit"]
          grown).
Proof.
  assert (Hne : hashObject (JSON_stringify first_record) <> "")
    by apply RefFacts.nonempty.
  assert (Hes : Forall (fun e : string * string => e.1 <> "b.txt")
                  [("a.txt", hashObject hello)])
    by (repeat constructor; discriminate).
  split; [split_and!; [exact Hne|apply grown_parent|exact Hes|apply grown_blob]|].
  exact (show_new_file grown "2024-01-02T00:00:00.000Z" "c2"
           (VArr [entry "b.txt" (hashObject "bee")])
           (hashObject (JSON_stringify first_record))
           (JSON_stringify first_record)
           "2024-01-01T00:00:00.000Z" "c1" (VStr "")
           [("a.txt", hashObject hello)] "b.txt" (hashObject "bee") "bee"
           Hne grown_parent first_record_parsed Hes grown_blob).
Defined.

Lemma show_with_missing_parent_witness :
  (JSON_parse_null
   /\ files orphan !! objPath (hashObject (JSON_stringify orphan_record))
      = Some (JSON_stringify orphan_record)
   /\ JSON_parse (JSON_stringify orphan_record) = Some orphan_record
   /\ missing_parent <> ""
   /\ files orphan !! objPath missing_parent = None
   /\ files orphan !! objPath (hashObject hello) = Some hello)
  /\ showCommitDiff (hashObject (JSON_stringify orphan_record)) orphan
     = (Throw TypeError,
        says [Log "Changes in the last commit are: "; Log "File: a.txt";
              Log hello;
              LogError "Failed to read the commit data"
                (ENOENT (objPath missing_parent))] orphan).
Proof.
  assert (H1 : files orphan !! objPath (hashObject (JSON_stringify orphan_record))
               = Some (JSON_stringify orphan_record))
    by (vm_compute; reflexivity).
  assert (H2 : JSON_parse (JSON_stringify orphan_record) = Some orphan_record)
    by (vm_compute; reflexivity).
  assert (H3 : missing_parent <> "") by discriminate.
  assert (H4 : files orphan !! objPath missing_parent = None)
    by (vm_compute; reflexivity).
  assert (H5 : files orphan !! objPath (hashObject hello) = Some hello)
    by (vm_compute; reflexivity).
  split; [split_and!; [apply RefFacts.parse_null|done..]|].
  exact (show_with_missing_parent orphan
           (hashObject (JSON_stringify orphan_record))
           (JSON_stringify orphan_record) "2024-01-02T00:00:00.000Z" "c2"
           "a.txt" (hashObject hello) hello [] missing_parent
           RefFacts.parse_null H1 H2 H3 H4 H5).
Defined.

Lemma show_on_other_object_witness :
  (files staged !! objPath (hashObject hello) = Some hello
   /\ JSON_parse hello = None)
  /\ showCommitDiff (hashObject hello) staged = (Throw SyntaxError, staged).
Proof.
  assert (Hs : files staged !! objPath (hashObject hello) = Some hello)
    by (vm_compute; reflexivity).
  assert (Hp : JSON_parse hello = None) by (vm_compute; reflexivity).
  split; [by split|].
  exact (proj1 (show_on_other_object staged (hashObject hello) hello Hs) Hp).
Defined.

Lemma twice_clean : clean twice fresh.
Proof.
  cbn [clean twice].
  repeat split; try (apply objects_keptb_sound); vm_compute; reflexivity.
Qed.

(** The commits of the session [twice], newest first, with the files
    staged for each. *)
Example twice_snapshots :
  snapshots twice fresh [] []
  = [ Snapshot "c2" "2024-01-02T00:00:00.000Z" [("a.txt", "third")];
      Snapshot "c1" "2024-01-01T00:00:00.000Z"
        [("a.txt", hello); ("a.txt", "second")] ].
Proof. vm_compute. reflexivity. Qed.

Lemma show_after_session_witness :
  (JSON_roundtrip /\ digest_nonempty /\ head_is fresh "" /\ index_is fresh []
   /\ clean twice fresh)
  /\ map (fun s => (VStr (s_message s), VStr (s_timeStamp s)))
       (snapshots twice fresh [] [])
     = rev (commits_of twice)
  /\ head_is (run twice fresh)
       (head_of (commit_infos (snapshots twice fresh [] [])))
  /\ history_ok (run twice fresh) (commit_infos (snapshots twice fresh [] []))
  /\ forall newer s older,
       snapshots twice fresh [] [] = newer ++ s :: older ->
       showCommitDiff (head_of (commit_infos (s :: older))) (run twice fresh)
       = (Ok tt, says (snapshot_output s older) (run twice fresh)).
Proof.
  split.
  - split_and!; [apply RefFacts.roundtrip|apply RefFacts.nonempty
                |apply fresh_head|apply fresh_index_is|apply twice_clean].
  - exact (show_after_session fresh twice RefFacts.roundtrip
             RefFacts.nonempty fresh_head fresh_index_is twice_clean).
Defined.

Lemma working_index : index_is working [].
Proof. exists "[]". split; vm_compute; reflexivity. Qed.

Lemma working_files :
  Forall (fun f => String.prefix repoPath f = false
                   /\ is_Some (files working !! f)) ["a.txt"; "b.txt"].
Proof.
  repeat constructor.
  - exists hello. vm_compute. reflexivity.
  - exists "bee". vm_compute. reflexivity.
Qed.

Lemma add_sequence_witness :
  (JSON_roundtrip /\ index_is working [] /\ is_plain (VArr []) = true
   /\ Forall (fun f => String.prefix repoPath f = false
                       /\ is_Some (files working !! f)) ["a.txt"; "b.txt"])
  /\ index_is (run (map Add ["a.txt"; "b.txt"]) working)
       ([] ++ map (fun f => entry f (hashObject (file_text working f)))
                ["a.txt"; "b.txt"]).
Proof.
  split.
  - split_and!; [apply RefFacts.roundtrip|apply working_index|done
                |apply working_files].
  - exact (add_sequence ["a.txt"; "b.txt"] working [] RefFacts.roundtrip
             working_index eq_refl working_files).
Defined.


Lemma commit_all_or_nothing_witness :
  files indexless !! indexPath = None
  /\ commit "c1" "2024-01-01T00:00:00.000Z" indexless
     = (Throw (ENOENT indexPath), indexless).
Proof.
  assert (Hi : files indexless !! indexPath = None)
    by (vm_compute; reflexivity).
  split; [exact Hi|].
  exact (proj1 (commit_all_or_nothing indexless "c1"
                  "2024-01-01T00:00:00.000Z") Hi).
Defined.

End Demo.
